(** * Near-Earth-Object notebooks: orbit classes and H-G apparent magnitude

    A shallow embedding of the pure functions of the notebooks
    [02_NEO_Classes.ipynb] ([neo_class]) and
    [05_NEO_Apparent_Magnitude.ipynb] ([phase_func], [reduc_mag],
    [hg_app_mag]), and the properties their documentation states; then of
    the cells around them: the reading of the catalogue file, the table
    [main] with its insert and its two updates, the way from heliocentric
    positions to the apparent magnitude, the orbital speed and the angular
    distance.

    Python floats are idealised as real numbers: rounding, overflow,
    underflow and signed zeros are outside the model.  What is kept is the
    control flow, the order of evaluation and every place where the
    interpreter or the [math] module refuses an argument: a raised exception
    is a value of [exn] in the error monad [result].  The nan that numpy
    hands back from a division by zero is kept where the code runs on with
    it.  Where rounding decides the outcome, the quotient handed to
    [math.acos], the statements are evaluated in binary64 arithmetic as
    well. *)

From Stdlib Require Import Floats.PrimFloat.
From Stdlib Require Import Reals Lra Lia ZArith QArith Qreals Ascii String.
From stdpp Require Import base option list strings gmap.

Open Scope R_scope.

(** Binary64 numbers are written in decimal, as the notebooks write them. *)
#[local] Set Warnings "-inexact-float".

(** ** Exceptions and the error monad *)

(** The exception classes the modelled code can raise. *)
Inductive exn : Set :=
  | KeyError             (* subscript of a dict with a missing key *)
  | TypeError            (* [math.exp] applied to a complex number *)
  | ValueError           (* "math domain error" of the [math] module *)
  | ZeroDivisionError    (* [0.0 ** y] with a negative [y] *)
  | FloatingPointError.  (* numpy's divide-by-zero / invalid signal *)

Inductive result (A : Type) : Type :=
  | Ok (a : A)
  | Raise (e : exn).
Arguments Ok {A} a.
Arguments Raise {A} e.

#[global] Instance result_ret : MRet result := fun A a => Ok a.
#[global] Instance result_bind : MBind result := fun A B f m =>
  match m with
  | Ok a => f a
  | Raise e => Raise e
  end.

Definition returns {A} (m : result A) : Prop := exists a, m = Ok a.
Definition raises {A} (m : result A) : Prop := exists e, m = Raise e.

(** ** Comparisons *)

#[global] Instance Rlt_decision : RelDecision Rlt := Rlt_dec.
#[global] Instance Rle_decision : RelDecision Rle := Rle_dec.
#[global] Instance Req_decision : EqDecision R := Req_dec_T.

(** Python's [x < y] and [x > y] on floats. *)
Definition py_lt (x y : R) : bool := bool_decide (x < y).
Definition py_gt (x y : R) : bool := bool_decide (y < x).

(** ** The orbit classifier of [02_NEO_Classes.ipynb] *)

Open Scope string_scope.

(** The chained comparison [1.017 < q < 1.3] is [1.017 < q and q < 1.3];
    [&] on two bools is their conjunction, both sides evaluated. *)
Definition neo_class (sem_maj_axis_au peri_helio_au ap_helio_au : R) : string :=
  if py_gt sem_maj_axis_au 1.0
     && (py_lt 1.017 peri_helio_au && py_lt peri_helio_au 1.3)
  then "Amor"
  else if py_gt sem_maj_axis_au 1.0 && py_lt peri_helio_au 1.017
  then "Apollo"
  else if py_lt sem_maj_axis_au 1.0 && py_gt ap_helio_au 0.983
  then "Aten"
  else if py_lt sem_maj_axis_au 1.0 && py_lt ap_helio_au 0.983
  then "Atira"
  else "Other".

(** The same classifier on rational arguments, where the comparisons
    evaluate. *)
Definition q_lt (x y : Q) : bool := negb (Qle_bool y x).
Definition q_gt (x y : Q) : bool := q_lt y x.

Definition neo_class_Q (sem_maj_axis_au peri_helio_au ap_helio_au : Q) : string :=
  if q_gt sem_maj_axis_au 1.0
     && (q_lt 1.017 peri_helio_au && q_lt peri_helio_au 1.3)
  then "Amor"
  else if q_gt sem_maj_axis_au 1.0 && q_lt peri_helio_au 1.017
  then "Apollo"
  else if q_lt sem_maj_axis_au 1.0 && q_gt ap_helio_au 0.983
  then "Aten"
  else if q_lt sem_maj_axis_au 1.0 && q_lt ap_helio_au 0.983
  then "Atira"
  else "Other".

Close Scope string_scope.

(** ** The interpreter and library operations the photometry code calls *)

(** [d[k]] on a dict. *)
Definition getitem (d : gmap Z R) (k : Z) : result R :=
  match d !! k with
  | Some v => Ok v
  | None => Raise KeyError
  end.

(** [math.tan]: a result that is infinite for a finite argument is a
    "math domain error". *)
Definition math_tan (x : R) : result R :=
  if decide (cos x = 0) then Raise ValueError else Ok (tan x).

(** The value of [x ** y] on two floats is a float or, for a negative base
    and a fractional exponent, a complex number (whose value no caller
    here can use). *)
Inductive pynum : Type :=
  | PyFloat (x : R)
  | PyComplex.

Definition is_integral (y : R) : bool := bool_decide (IZR (Int_part y) = y).

Definition py_pow (x y : R) : result pynum :=
  if decide (y = 0) then Ok (PyFloat 1)
  else if decide (0 < x) then Ok (PyFloat (Rpower x y))
  else if decide (x = 0) then
    if decide (y < 0) then Raise ZeroDivisionError else Ok (PyFloat 0)
  else if is_integral y then Ok (PyFloat (powerRZ x (Int_part y)))
  else Ok PyComplex.

(** [c * v] for a float [c]. *)
Definition py_mul (c : R) (v : pynum) : pynum :=
  match v with
  | PyFloat x => PyFloat (c * x)
  | PyComplex => PyComplex
  end.

(** [math.exp] converts its argument to a float first.  (The real
    exponential is positive everywhere; the float one rounds to [0.0] below
    about [-745].) *)
Definition math_exp (v : pynum) : result R :=
  match v with
  | PyFloat x => Ok (exp x)
  | PyComplex => Raise TypeError
  end.

Definition log10 (x : R) : R := ln x / ln 10.

Definition math_log10 (x : R) : result R :=
  if decide (0 < x) then Ok (log10 x) else Raise ValueError.

Definition math_acos (x : R) : result R :=
  if decide (-1 <= x <= 1) then Ok (acos x) else Raise ValueError.

(** [np.linalg.norm] of a one-dimensional sequence. *)
Definition sum_list (l : list R) : R := foldr Rplus 0 l.
Definition sum_sq (v : list R) : R := sum_list (map (fun x => x * x) v).
Definition np_linalg_norm (v : list R) : R := sqrt (sum_sq v).

(** [sum(a * b for a, b in zip(v1, v2))]; [zip] stops at the shorter list. *)
Definition dotp (v1 v2 : list R) : R := sum_list (zip_with Rmult v1 v2).

(** The quotient of two floats where nothing but [np.sqrt] follows it
    ([v_orb_func]).  On a zero divisor numpy signals the IEEE divide-by-zero
    or invalid exception and hands back inf or nan, which is not a real: the
    embedding ends there with [FloatingPointError]. *)
Definition np_true_divide (x y : R) : result R :=
  if decide (y = 0) then Raise FloatingPointError else Ok (x / y).

(** Where the code runs on after such a division ([hg_app_mag]), the value
    numpy hands back is kept: a number, nan, or an infinity. *)
Inductive float64 : Type :=
  | Num (x : R)
  | NaN
  | Inf.

(** A float divided by a [numpy.float64]: numpy does the division and raises
    nothing.  On a zero divisor it warns and hands back nan for [0 / 0] and
    an infinity for any other dividend. *)
Definition float64_divide (x y : R) : float64 :=
  if decide (y = 0) then (if decide (x = 0) then NaN else Inf)
  else Num (x / y).

(** [math.acos] on such a value: nan is handed on, an infinity is outside
    the domain as any number beyond [[-1, 1]] is. *)
Definition math_acos_float64 (q : float64) : result float64 :=
  match q with
  | Num x => angle ← math_acos x; Ok (Num angle)
  | NaN => Ok NaN
  | Inf => Raise ValueError
  end.

(** ** The photometry functions of [05_NEO_Apparent_Magnitude.ipynb] *)

Definition a_factor : gmap Z R := {[ 1%Z := 3.33; 2%Z := 1.87 ]}.
Definition b_factor : gmap Z R := {[ 1%Z := 0.63; 2%Z := 1.22 ]}.

(** The operands of [-1.0 * a_factor[index] * (math.tan(...) ** b_factor[index])]
    are evaluated from left to right. *)
Definition phase_func (index : Z) (phase_angle : R) : result R :=
  a ← getitem a_factor index;
  t ← math_tan (0.5 * phase_angle);
  b ← getitem b_factor index;
  p ← py_pow t b;
  math_exp (py_mul (-1.0 * a) p).

(** The default of the optional parameter [slope_g]. *)
Definition slope_g_default : R := 0.15.

Definition reduc_mag (abs_mag phase_angle : R) (slope_g : option R) : result R :=
  let slope_g := default slope_g_default slope_g in
  phi1 ← phase_func 1 phase_angle;
  phi2 ← phase_func 2 phase_angle;
  l ← math_log10 ((1.0 - slope_g) * phi1 + slope_g * phi2);
  Ok (abs_mag - 2.5 * l).

(** [reduc_mag] on the phase angle [math.acos] handed back.  Called with
    nan it raises nothing and returns nan: [0.5 * nan], [math.tan], [**]
    with the exponents 0.63 and 1.22, the products, [math.exp], the weighted
    sum, [math.log10] and the difference all hand nan on.  On an infinity
    [math.tan] raises. *)
Definition reduc_mag_float64 (abs_mag : R) (phase_angle : float64)
    (slope_g : option R) : result float64 :=
  match phase_angle with
  | Num theta => red_mag ← reduc_mag abs_mag theta slope_g; Ok (Num red_mag)
  | NaN => Ok NaN
  | Inf => Raise ValueError
  end.

(** The local [obj_phase_angle] of [hg_app_mag].  In exact arithmetic the
    quotient of two nonzero vectors lies in [[-1, 1]]; rounded, it can leave
    that interval, which [obj_phase_angle_b64] below shows. *)
Definition obj_phase_angle (vec_obj2obs vec_obj2ill : list R) : result float64 :=
  let vec_obj2obs_norm := np_linalg_norm vec_obj2obs in
  let vec_obj2ill_norm := np_linalg_norm vec_obj2ill in
  let dotp_res := dotp vec_obj2obs vec_obj2ill in
  math_acos_float64
    (float64_divide dotp_res (vec_obj2obs_norm * vec_obj2ill_norm)).

(** The last statement takes the logarithm first and then adds.  A sum with
    nan is no real number and, as in [np_true_divide], ends the embedding
    with [FloatingPointError]; no input gets there
    ([hg_app_mag_no_FloatingPointError]), since nan comes from a zero divisor
    only, and the logarithm refuses that divisor. *)
Definition hg_app_mag (abs_mag : R) (vec_obj2obs vec_obj2ill : list R)
    (slope_g : option R) : result R :=
  let slope_g := default slope_g_default slope_g in
  let vec_obj2obs_norm := np_linalg_norm vec_obj2obs in
  let vec_obj2ill_norm := np_linalg_norm vec_obj2ill in
  angle ← obj_phase_angle vec_obj2obs vec_obj2ill;
  red_mag ← reduc_mag_float64 abs_mag angle (Some slope_g);
  l ← math_log10 (vec_obj2obs_norm * vec_obj2ill_norm);
  match red_mag with
  | Num red_mag => Ok (red_mag + 5.0 * l)
  | NaN | Inf => Raise FloatingPointError
  end.

(** ** Notions the statements use *)

(** The real power [x ^ y] of a base [x >= 0] to an exponent [y > 0]. *)
Definition real_pow (x y : R) : R :=
  if decide (x = 0) then 0 else Rpower x y.

(** A vector is nonzero when one of its components is. *)
Definition nonzero (v : list R) : Prop := Exists (fun x => x <> 0) v.

(** ** Rational lower bounds of the exponential

    Used to place the docstring values: [exp x >= (1 + x / 2 ^ k) ^ (2 ^ k)],
    the power taken by [k] squarings in fixed point with scale [s], every
    quotient rounded down. *)

Fixpoint square_iter (s : Z) (k : nat) (m : Z) : Z :=
  match k with
  | O => m
  | S k' => square_iter s k' (m * m / s)
  end.

Definition exp_base (s : Z) (k : nat) (x : Q) : Z :=
  (s + Qnum x * s / (Z.pos (Qden x) * 2 ^ Z.of_nat k))%Z.

Definition exp_lb (s : Z) (k : nat) (x : Q) : Z :=
  square_iter s k (exp_base s k x).

Definition scale : Z := 2 ^ 256.
Definition steps : nat := 80.

(** [check_exp_lower s k a x] establishes [a <= exp x], and
    [check_exp_upper s k a x] establishes [exp x <= a] through
    [exp x = 1 / exp (- x)]. *)
Definition check_exp_lower (s : Z) (k : nat) (a x : Q) : bool :=
  (Z.ltb 0 s && Z.leb 0 (exp_base s k x)
   && Z.leb (Qnum a * s) (exp_lb s k x * Z.pos (Qden a)))%bool.

Definition check_exp_upper (s : Z) (k : nat) (a x : Q) : bool :=
  (Z.ltb 0 s && Z.leb 0 (exp_base s k (Qopp x))
   && Z.ltb 0 (exp_lb s k (Qopp x))
   && Z.leb (s * Z.pos (Qden a)) (exp_lb s k (Qopp x) * Qnum a))%bool.

(** ** Arrays and the cells around [hg_app_mag] *)

(** [c * arr] for a scalar [c]. *)
Definition np_scale (c : R) (v : list R) : list R := map (Rmult c) v.


(** [u + v] and [u - v] on one-dimensional arrays: elementwise on equal
    lengths, a length-one array is broadcast, other shapes are refused. *)
Definition np_broadcast2 (f : R -> R -> R) (u v : list R) : result (list R) :=
  if decide (length u = length v) then Ok (zip_with f u v)
  else match u, v with
       | [x], _ => Ok (map (f x) v)
       | _, [y] => Ok (map (fun x => f x y) u)
       | _, _ => Raise ValueError
       end.

Definition np_add : list R -> list R -> result (list R) := np_broadcast2 Rplus.
Definition np_subtract : list R -> list R -> result (list R) := np_broadcast2 Rminus.

(** [arr / c] for a scalar [c]: on a zero divisor numpy has no number for
    any element. *)
Definition np_divide_scalar (v : list R) (c : R) : result (list R) :=
  if decide (c = 0 /\ v <> []) then Raise FloatingPointError
  else Ok (map (fun x => x / c) v).

(** The astronomical unit in km, as [05_NEO_Apparent_Magnitude.ipynb] sets it. *)
Definition one_au : R := 149597870.700.

(** The cells of [05_NEO_Apparent_Magnitude.ipynb] that lead from the
    heliocentric positions (km) of the asteroid and of the Earth to the
    apparent magnitude. *)
Definition eros433_app_mag (abs_mag slope_g : R)
    (sun_eros433_vec sun_earth_vec : list R) : result R :=
  let vec_eros433_to_sun := np_scale (-1.0) sun_eros433_vec in
  vec_eros433_to_earth ← np_add vec_eros433_to_sun sun_earth_vec;
  vec_obj2obs ← np_divide_scalar vec_eros433_to_earth one_au;
  vec_obj2ill ← np_divide_scalar vec_eros433_to_sun one_au;
  hg_app_mag abs_mag vec_obj2obs vec_obj2ill (Some slope_g).

(** The derived parameters of [01_NEODyS_download.ipynb], in the order of the
    dict: aphelion, then perihelion. *)
Definition aphel_au (sem_maj_axis ecc : R) : R := (1.0 + ecc) * sem_maj_axis.
Definition perihel_au (sem_maj_axis ecc : R) : R := (1.0 - ecc) * sem_maj_axis.

(** ** The table [main] of the NEODyS database

    A row read back from sqlite holds a float or [None] (SQL NULL) in each
    numeric column.  The nine catalogue columns are filled by the insert of
    [01_NEODyS_download.ipynb] from parsed floats, the only way rows enter;
    the columns added later by [ALTER TABLE] are NULL until an [UPDATE]
    sets them.  [Name] is the primary key: the table is a map from names. *)

Record elements : Type := Elements {
  Epoch_MJD : R;
  SemMajAxis_AU : R;
  Ecc_ : R;
  Incl_deg : R;
  LongAscNode_deg : R;
  ArgP_deg : R;
  MeanAnom_deg : R;
  AbsMag_ : R;
  SlopeParamG_ : R
}.

Record main_row : Type := MainRow {
  orbit : elements;
  Aphel_AU : option R;
  Perihel_AU : option R;
  NEOClass : option string
}.

(** [INSERT OR IGNORE INTO main(Name, ...) VALUES (...)]: a row whose name is
    taken is dropped; the columns the statement does not name are NULL. *)
Definition insert_or_ignore (t : gmap string main_row) (d : string * elements)
    : gmap string main_row :=
  match t !! d.1 with
  | Some _ => t
  | None => <[d.1 := MainRow d.2 None None None]> t
  end.

(** [executemany] runs the statement on each parameter set in turn. *)
Definition insert_cell (t : gmap string main_row)
    (neo_dict : list (string * elements)) : gmap string main_row :=
  foldl insert_or_ignore t neo_dict.

(** [SELECT ... FROM main] followed by [fetchall]: the rows, in an order
    SQL leaves open. *)
Definition fetchall (t : gmap string main_row) : list (string * main_row) :=
  map_to_list t.

(** The loop of [01_NEODyS_download.ipynb] over the fetched rows: one
    parameter set (name, aphelion, perihelion) per row. *)
Definition deriv_param_dict (rows : list (string * main_row))
    : list (string * (R * R)) :=
  map (fun row =>
         (row.1,
          (aphel_au (SemMajAxis_AU (orbit row.2)) (Ecc_ (orbit row.2)),
           perihel_au (SemMajAxis_AU (orbit row.2)) (Ecc_ (orbit row.2)))))
      rows.

(** [UPDATE main SET Aphel_AU = :Aphel_AU, Perihel_AU = :Perihel_AU
    WHERE Name = :Name]. *)
Definition update_deriv (t : gmap string main_row) (p : string * (R * R))
    : gmap string main_row :=
  alter (fun r => MainRow (orbit r) (Some p.2.1) (Some p.2.2) (NEOClass r)) p.1 t.

Definition deriv_cell_on (rows : list (string * main_row))
    (t : gmap string main_row) : gmap string main_row :=
  foldl update_deriv t (deriv_param_dict rows).

Definition deriv_cell (t : gmap string main_row) : gmap string main_row :=
  deriv_cell_on (fetchall t) t.

(** *** [neo_class] on the values of a fetched row

    A comparison of [None] with a float raises [TypeError].  Both operands of
    [&] are evaluated; the chained comparison stops at its first false
    link. *)
Definition py_lt_dyn (x y : option R) : result bool :=
  match x, y with
  | Some x, Some y => Ok (py_lt x y)
  | _, _ => Raise TypeError
  end.

Definition py_gt_dyn (x y : option R) : result bool := py_lt_dyn y x.

Definition neo_class_dyn (sem_maj_axis_au peri_helio_au ap_helio_au : option R)
    : result string :=
  c1 ← py_gt_dyn sem_maj_axis_au (Some 1.0);
  c2 ← (l ← py_lt_dyn (Some 1.017) peri_helio_au;
        if l : bool then py_lt_dyn peri_helio_au (Some 1.3) else Ok false);
  if c1 && c2 then Ok "Amor"%string else
  c3 ← py_gt_dyn sem_maj_axis_au (Some 1.0);
  c4 ← py_lt_dyn peri_helio_au (Some 1.017);
  if c3 && c4 then Ok "Apollo"%string else
  c5 ← py_lt_dyn sem_maj_axis_au (Some 1.0);
  c6 ← py_gt_dyn ap_helio_au (Some 0.983);
  if c5 && c6 then Ok "Aten"%string else
  c7 ← py_lt_dyn sem_maj_axis_au (Some 1.0);
  c8 ← py_lt_dyn ap_helio_au (Some 0.983);
  if c7 && c8 then Ok "Atira"%string else
  Ok "Other"%string.

(** The loop of [02_NEO_Classes.ipynb] over the fetched rows, and its
    [UPDATE main SET NEOClass = :NEOClass WHERE Name = :Name]. *)
Definition neo_class_param_dict (rows : list (string * main_row))
    : result (list (string * string)) :=
  mapM (fun row =>
          c ← neo_class_dyn (Some (SemMajAxis_AU (orbit row.2)))
                (Perihel_AU row.2) (Aphel_AU row.2);
          Ok (row.1, c))
       rows.

Definition update_class (t : gmap string main_row) (p : string * string)
    : gmap string main_row :=
  alter (fun r => MainRow (orbit r) (Aphel_AU r) (Perihel_AU r) (Some p.2)) p.1 t.

Definition class_cell_on (rows : list (string * main_row))
    (t : gmap string main_row) : result (gmap string main_row) :=
  params ← neo_class_param_dict rows;
  Ok (foldl update_class t params).

Definition class_cell (t : gmap string main_row) : result (gmap string main_row) :=
  class_cell_on (fetchall t) t.

(** The three cells in a row, on a fresh database. *)
Definition neodys_pipeline (neo_dict : list (string * elements))
    : result (gmap string main_row) :=
  class_cell (deriv_cell (insert_cell ∅ neo_dict)).

(** What the derived-parameter cell makes of a row. *)
Definition with_deriv (r : main_row) : main_row :=
  MainRow (orbit r)
    (Some (aphel_au (SemMajAxis_AU (orbit r)) (Ecc_ (orbit r))))
    (Some (perihel_au (SemMajAxis_AU (orbit r)) (Ecc_ (orbit r))))
    (NEOClass r).

(** ** Reading the catalogue file ([01_NEODyS_download.ipynb])

    Text is a [string] of code points below 256.  The exceptions of this
    cell are kept in a type of their own. *)

Inductive read_exn : Set :=
  | IndexError        (* subscript of a list past its end *)
  | FloatValueError.  (* the [ValueError] of [float] on a malformed string *)

Inductive outcome (A : Type) : Type :=
  | Done (a : A)
  | Fail (e : read_exn).
Arguments Done {A} a.
Arguments Fail {A} e.

#[global] Instance outcome_ret : MRet outcome := fun A a => Done a.
#[global] Instance outcome_bind : MBind outcome := fun A B f m =>
  match m with
  | Done a => f a
  | Fail e => Fail e
  end.

(** The characters [str.split] takes for whitespace. *)
Definition is_space (c : ascii) : bool :=
  let n := nat_of_ascii c in
  ((9 <=? n)%nat && (n <=? 13)%nat) || ((28 <=? n)%nat && (n <=? 32)%nat)
  || (n =? 133)%nat || (n =? 160)%nat.

(** [s.split()]: the maximal runs of characters that are not whitespace;
    [tok] is the run being read. *)
Fixpoint split_go (s : string) (tok : string) : list string :=
  match s with
  | EmptyString =>
      match tok with
      | EmptyString => []
      | _ => [tok]
      end
  | String c s' =>
      if is_space c then
        match tok with
        | EmptyString => split_go s' EmptyString
        | _ => tok :: split_go s' EmptyString
        end
      else split_go s' (tok +:+ String c EmptyString)
  end.

Definition py_split (s : string) : list string := split_go s EmptyString.

(** [s.replace(c, "")] for a one-character [c]. *)
Fixpoint str_remove (c : ascii) (s : string) : string :=
  match s with
  | EmptyString => EmptyString
  | String x s' =>
      if Ascii.eqb x c then str_remove c s' else String x (str_remove c s')
  end.

Definition apostrophe : ascii := Ascii.ascii_of_nat 39.

(** [l[i]]. *)
Definition item (l : list string) (i : nat) : outcome string :=
  match l !! i with
  | Some x => Done x
  | None => Fail IndexError
  end.

Section ReadCatalogue.

(** [float] on a string: its value, or [None] where Python raises. *)
Variable py_float : string -> option R.

Definition float_of (s : string) : outcome R :=
  match py_float s with
  | Some x => Done x
  | None => Fail FloatValueError
  end.

Definition float_item (l : list string) (i : nat) : outcome R :=
  s ← item l i; float_of s.

(** The dict built from one line; its entries are evaluated in order. *)
Definition read_fields (neo_data_line : list string) : outcome (string * elements) :=
  name ← item neo_data_line 0;
  epoch ← float_item neo_data_line 1;
  a ← float_item neo_data_line 2;
  ecc ← float_item neo_data_line 3;
  incl ← float_item neo_data_line 4;
  node ← float_item neo_data_line 5;
  argp ← float_item neo_data_line 6;
  anom ← float_item neo_data_line 7;
  h ← float_item neo_data_line 8;
  g ← float_item neo_data_line 9;
  Done (str_remove apostrophe name,
        Elements epoch a ecc incl node argp anom h g).

Definition read_line (neo_data_line_f : string) : outcome (string * elements) :=
  read_fields (py_split neo_data_line_f).

(** The lines after the six header lines, each read in turn. *)
Definition read_catalogue (lines : list string) : outcome (list (string * elements)) :=
  mapM read_line (drop 6 lines).

(** The same loop with the list it fills.  [neo_dict] is bound to an empty
    list before the loop and every record is appended to it in place, so a
    line that raises leaves in [neo_dict] the records of the lines before
    it.  The outcome is what [neo_dict] holds when the cell ends, and the
    exception that ended it, if one did. *)
Fixpoint read_loop (neo_data : list string) (neo_dict : list (string * elements))
    : list (string * elements) * option read_exn :=
  match neo_data with
  | [] => (neo_dict, None)
  | neo_data_line_f :: neo_data' =>
      match read_line neo_data_line_f with
      | Done d => read_loop neo_data' (neo_dict ++ [d])
      | Fail e => (neo_dict, Some e)
      end
  end.

Definition read_cell (lines : list string)
    : list (string * elements) * option read_exn :=
  read_loop (drop 6 lines) [].

End ReadCatalogue.

(** Every character of a string passes a test. *)
Fixpoint str_forall (p : ascii -> bool) (s : string) : bool :=
  match s with
  | EmptyString => true
  | String c s' => p c && str_forall p s'
  end.

(** A field has a character and no whitespace. *)
Definition clean_field (f : string) : Prop :=
  f <> EmptyString /\ str_forall (fun c => negb (is_space c)) f = true.

(** ** The orbital-speed notebook

    [np.sqrt] and [np.arccos] outside their domains signal the IEEE invalid
    exception and hand back nan; as for the division, the embedding stops
    there.  [np.dot] of two one-dimensional arrays wants equal lengths. *)
Definition np_sqrt (x : R) : result R :=
  if decide (x < 0) then Raise FloatingPointError else Ok (sqrt x).

Definition np_arccos (x : R) : result R :=
  if decide (-1 <= x <= 1) then Ok (acos x) else Raise FloatingPointError.

Definition np_degrees (x : R) : R := x * (180 / PI).

Definition np_dot (u v : list R) : result R :=
  if decide (length u = length v) then Ok (dotp u v) else Raise ValueError.

(** [v_orb_func = lambda gm, r: np.sqrt(gm/r)]. *)
Definition v_orb_func (gm r : R) : result R :=
  q ← np_true_divide gm r; np_sqrt q.

(** The angular distance, in degrees, between the position part of a state
    vector and the direction [(1, 0, 0)]. *)
Definition ang_dist_deg (earth_state_wrt_sun : list R) : result R :=
  let earth_sun_distance := np_linalg_norm (take 3 earth_state_wrt_sun) in
  let earth_position_wrt_sun := take 3 earth_state_wrt_sun in
  earth_position_wrt_sun_normed ←
    np_divide_scalar earth_position_wrt_sun earth_sun_distance;
  let earth_position_wrt_sun_normed_autumn := [1.0; 0.0; 0.0] in
  d ← np_dot earth_position_wrt_sun_normed earth_position_wrt_sun_normed_autumn;
  a ← np_arccos d;
  Ok (np_degrees a).

(** ** The apparent magnitude of the population model

    [spiceypy.convrt(k, "km", "AU")] is not part of the repository: it is a
    parameter here. *)
Definition granvik_app_mag (convrt_km_AU : R -> R) (h : R)
    (sun2earth_position_vec sun2neo_position_vec : list R) : result R :=
  neo2earth_position_vec ← np_subtract sun2earth_position_vec sun2neo_position_vec;
  let neo2sun_position_vec := np_scale (-1.0) sun2neo_position_vec in
  hg_app_mag h (map convrt_km_AU neo2earth_position_vec)
    (map convrt_km_AU neo2sun_position_vec) (Some 0.15).

(** The elements of (433) Eros, as [05_NEO_Apparent_Magnitude.ipynb] shows
    them. *)
Definition eros433 : elements :=
  Elements 59600.0 1.458273 0.222727 10.828461 304.296346 178.897177
    246.904119 10.87 0.46.

(** The table that holds it alone, as inserted and once the
    derived-parameter cell has run. *)
Definition eros433_table : gmap string main_row :=
  {[ "433"%string := MainRow eros433 None None None ]}.
Definition eros433_derived : gmap string main_row :=
  {[ "433"%string := with_deriv (MainRow eros433 None None None) ]}.

(** A catalogue file of six header lines and one record, and a stand-in
    for [float] that reads every string as [0]. *)
Definition catalogue_example : list string :=
  ["format  = 'OEF2.0'"; "rectype = 'ML'"; "elem    = 'KEP'";
   "refsys  = ECLM J2000"; "END_OF_HEADER"; "! Name, Epoch(MJD), a, e, i";
   "'433'  59600.0  1.458273  0.222727  10.828  304.296  178.897  246.904  10.87  0.46"
  ]%string.

Definition float_zero (s : string) : option R := Some 0.

Definition fields_example : list string :=
  ["433"; "1"; "2"; "3"; "4"; "5"; "6"; "7"; "8"; "9"]%string.

(** ** The phase-angle quotient in binary64 arithmetic

    The first statements of [hg_app_mag] once more, on IEEE binary64 numbers
    with the kernel's correctly rounded sum, product, quotient and square
    root: the two norms, the dot product, their quotient, and the test by
    which [math.acos] accepts or refuses it.  [sum] adds the products in
    order, from [0]; [np.linalg.norm] is the square root of the array's dot
    product with itself.  The arc cosine of the C library is not an
    operation of the kernel and stays a parameter. *)

Definition dotp_b64 (v1 v2 : list float) : float :=
  foldl (fun acc p => acc + p.1 * p.2)%float 0%float (zip v1 v2).

Definition np_linalg_norm_b64 (v : list float) : float :=
  PrimFloat.sqrt (dotp_b64 v v).

Definition quotient_b64 (vec_obj2obs vec_obj2ill : list float) : float :=
  let vec_obj2obs_norm := np_linalg_norm_b64 vec_obj2obs in
  let vec_obj2ill_norm := np_linalg_norm_b64 vec_obj2ill in
  let dotp_res := dotp_b64 vec_obj2obs vec_obj2ill in
  (dotp_res / (vec_obj2obs_norm * vec_obj2ill_norm))%float.

Section Binary64.

Variable libm_acos : float -> float.

(** [math.acos] hands nan on and refuses every other argument outside
    [[-1, 1]]. *)
Definition math_acos_b64 (x : float) : result float :=
  if PrimFloat.is_nan x then Ok x
  else if ((-1 <=? x) && (x <=? 1))%float then Ok (libm_acos x)
  else Raise ValueError.

Definition obj_phase_angle_b64 (vec_obj2obs vec_obj2ill : list float)
    : result float :=
  math_acos_b64 (quotient_b64 vec_obj2obs vec_obj2ill).

End Binary64.

(** A vector along itself, whose quotient rounds above [1]. *)
Definition aligned_example_b64 : list float := [2.4; -2.8; -2.8]%float.
Definition aligned_example : list R := [2.4; -2.8; -2.8].

(** * Properties *)

(** ** The error monad *)

Lemma bind_Ok {A B} (f : A -> result B) (a : A) : (Ok a ≫= f) = f a.
Proof. reflexivity. Qed.

Lemma bind_Raise {A B} (f : A -> result B) (e : exn) : (Raise e ≫= f) = Raise e.
Proof. reflexivity. Qed.

Lemma returns_not_raises {A} (m : result A) : returns m -> ~ raises m.
Proof. intros [a ->] [e He]. discriminate. Qed.

Lemma raises_not_returns {A} (m : result A) : raises m -> ~ returns m.
Proof. intros [e ->] [a Ha]. discriminate. Qed.

(** ** [neo_class] *)

Ltac neo_cases :=
  unfold neo_class, py_gt, py_lt;
  repeat case_bool_decide; simpl; try reflexivity; try lra.

Lemma neo_class_Amor a q Q :
  1 < a -> 1.017 < q < 1.3 -> neo_class a q Q = "Amor"%string.
Proof. intros Ha [Hq1 Hq2]. neo_cases. Qed.

Lemma neo_class_Apollo a q Q :
  1 < a -> q < 1.017 -> neo_class a q Q = "Apollo"%string.
Proof. intros Ha Hq. neo_cases. Qed.

Lemma neo_class_Aten a q Q :
  a < 1 -> 0.983 < Q -> neo_class a q Q = "Aten"%string.
Proof. intros Ha HQ. neo_cases. Qed.

Lemma neo_class_Atira a q Q :
  a < 1 -> Q < 0.983 -> neo_class a q Q = "Atira"%string.
Proof. intros Ha HQ. neo_cases. Qed.

Lemma neo_class_Other a q Q :
  ~ (1 < a /\ 1.017 < q < 1.3) -> ~ (1 < a /\ q < 1.017) ->
  ~ (a < 1 /\ 0.983 < Q) -> ~ (a < 1 /\ Q < 0.983) ->
  neo_class a q Q = "Other"%string.
Proof. intros H1 H2 H3 H4. neo_cases; exfalso; tauto. Qed.

(** The classifier has no other answers. *)
Lemma neo_class_range a q Q :
  In (neo_class a q Q) ["Amor"; "Apollo"; "Aten"; "Atira"; "Other"]%string.
Proof. neo_cases; simpl; tauto. Qed.

(** On rational arguments the classifier is [neo_class_Q], which computes. *)
Lemma py_lt_Q2R (x y : Q) : py_lt (Q2R x) (Q2R y) = q_lt x y.
Proof.
  unfold py_lt, q_lt. case_bool_decide as H.
  - destruct (Qle_bool y x) eqn:E; [|reflexivity].
    apply Qle_bool_iff, Qle_Rle in E. lra.
  - destruct (Qle_bool y x) eqn:E; [reflexivity|].
    exfalso. apply H. apply Qlt_Rlt, Qnot_le_lt.
    intros Hle. apply Qle_bool_iff in Hle. congruence.
Qed.

Lemma py_gt_Q2R (x y : Q) : py_gt (Q2R x) (Q2R y) = q_gt x y.
Proof. apply (py_lt_Q2R y x). Qed.

Lemma neo_class_Q2R (a q Q' : Q) :
  neo_class (Q2R a) (Q2R q) (Q2R Q') = neo_class_Q a q Q'.
Proof.
  unfold neo_class, neo_class_Q.
  rewrite !py_gt_Q2R, !py_lt_Q2R. reflexivity.
Qed.

(** The notebook's test cell, by evaluation. *)
Example neo_class_Q_amor1221 :
  neo_class_Q 1.9191 1.0832 2.7550 = "Amor"%string.
Proof. reflexivity. Qed.

Example neo_class_Q_apollo1862 :
  neo_class_Q 1.4702 0.64699 2.2935 = "Apollo"%string.
Proof. reflexivity. Qed.

Example neo_class_Q_aten2062 :
  neo_class_Q 0.9668 0.7901 1.1434 = "Aten"%string.
Proof. reflexivity. Qed.

Example neo_class_Q_atira163693 :
  neo_class_Q 0.7411 0.5024 0.9798 = "Atira"%string.
Proof. reflexivity. Qed.

Example neo_class_Q_thresholds :
  neo_class_Q 1.0 0.5 1.5 = "Other"%string /\
  neo_class_Q 2 1.017 2.983 = "Other"%string /\
  neo_class_Q 2 1.3 2.7 = "Other"%string /\
  neo_class_Q 0.9 0.817 0.983 = "Other"%string.
Proof. repeat split. Qed.

(** C4: [neo_class] answers Amor for [a > 1] and [1.017 < q < 1.3], Apollo
    for [a > 1] and [q < 1.017], Aten for [a < 1] and [Q > 0.983], Atira for
    [a < 1] and [Q < 0.983], and Other in every remaining case; the four
    asteroids of the notebook's test cell get their classes. *)
Theorem neo_class_spec (a q Q : R) :
  (a > 1 -> 1.017 < q < 1.3 -> neo_class a q Q = "Amor"%string) /\
  (a > 1 -> q < 1.017 -> neo_class a q Q = "Apollo"%string) /\
  (a < 1 -> Q > 0.983 -> neo_class a q Q = "Aten"%string) /\
  (a < 1 -> Q < 0.983 -> neo_class a q Q = "Atira"%string) /\
  (~ (a > 1 /\ 1.017 < q < 1.3) -> ~ (a > 1 /\ q < 1.017) ->
   ~ (a < 1 /\ Q > 0.983) -> ~ (a < 1 /\ Q < 0.983) ->
   neo_class a q Q = "Other"%string) /\
  neo_class 1.9191 1.0832 2.7550 = "Amor"%string /\
  neo_class 1.4702 0.64699 2.2935 = "Apollo"%string /\
  neo_class 0.9668 0.7901 1.1434 = "Aten"%string /\
  neo_class 0.7411 0.5024 0.9798 = "Atira"%string.
Proof.
  repeat split.
  - apply neo_class_Amor.
  - apply neo_class_Apollo.
  - apply neo_class_Aten.
  - apply neo_class_Atira.
  - apply neo_class_Other.
  - apply neo_class_Amor; lra.
  - apply neo_class_Apollo; lra.
  - apply neo_class_Aten; lra.
  - apply neo_class_Atira; lra.
Qed.

Lemma neo_class_spec_witness :
  neo_class 1.5 1.1 1.9 = "Amor"%string /\
  neo_class 1.5 0.9 2.1 = "Apollo"%string /\
  neo_class 0.9 0.8 1.0 = "Aten"%string /\
  neo_class 0.7 0.5 0.9 = "Atira"%string /\
  neo_class 1.5 1.4 1.6 = "Other"%string.
Proof.
  repeat split.
  - apply (proj1 (neo_class_spec 1.5 1.1 1.9)); lra.
  - apply (proj1 (proj2 (neo_class_spec 1.5 0.9 2.1))); lra.
  - apply (proj1 (proj2 (proj2 (neo_class_spec 0.9 0.8 1.0)))); lra.
  - apply (proj1 (proj2 (proj2 (proj2 (neo_class_spec 0.7 0.5 0.9))))); lra.
  - apply (proj1 (proj2 (proj2 (proj2 (proj2 (neo_class_spec 1.5 1.4 1.6)))))); lra.
Defined.

(** C5: an input exactly on a threshold ([a = 1], or [a > 1] with
    [q = 1.017] or [q = 1.3], or [a < 1] with [Q = 0.983]) is classified
    Other. *)
Theorem neo_class_threshold (a q Q : R) :
  (a = 1.0 -> neo_class a q Q = "Other"%string) /\
  (a > 1 -> q = 1.017 -> neo_class a q Q = "Other"%string) /\
  (a > 1 -> q = 1.3 -> neo_class a q Q = "Other"%string) /\
  (a < 1 -> Q = 0.983 -> neo_class a q Q = "Other"%string).
Proof.
  repeat split; intros; apply neo_class_Other; lra.
Qed.

Lemma neo_class_threshold_witness :
  neo_class 1.0 0.5 1.5 = "Other"%string /\
  neo_class 2 1.017 2.983 = "Other"%string /\
  neo_class 2 1.3 2.7 = "Other"%string /\
  neo_class 0.9 0.817 0.983 = "Other"%string.
Proof.
  repeat split.
  - apply (proj1 (neo_class_threshold 1.0 0.5 1.5)); lra.
  - apply (proj1 (proj2 (neo_class_threshold 2 1.017 2.983))); lra.
  - apply (proj1 (proj2 (proj2 (neo_class_threshold 2 1.3 2.7)))); lra.
  - apply (proj2 (proj2 (proj2 (neo_class_threshold 0.9 0.817 0.983)))); lra.
Defined.

(** ** The constant tables *)

Lemma getitem_a_factor_1 : getitem a_factor 1 = Ok 3.33.
Proof. unfold getitem, a_factor. by simplify_map_eq. Qed.

Lemma getitem_a_factor_2 : getitem a_factor 2 = Ok 1.87.
Proof. unfold getitem, a_factor. by simplify_map_eq. Qed.

Lemma getitem_b_factor_1 : getitem b_factor 1 = Ok 0.63.
Proof. unfold getitem, b_factor. by simplify_map_eq. Qed.

Lemma getitem_b_factor_2 : getitem b_factor 2 = Ok 1.22.
Proof. unfold getitem, b_factor. by simplify_map_eq. Qed.

Lemma getitem_a_factor_missing (index : Z) :
  index <> 1%Z -> index <> 2%Z -> getitem a_factor index = Raise KeyError.
Proof. intros H1 H2. unfold getitem, a_factor. by simplify_map_eq. Qed.

Lemma getitem_a_factor_dom (index : Z) :
  returns (getitem a_factor index) <-> index = 1%Z \/ index = 2%Z.
Proof.
  split.
  - intros [a Ha].
    destruct (decide (index = 1%Z)) as [|H1]; [by left|].
    destruct (decide (index = 2%Z)) as [|H2]; [by right|].
    rewrite getitem_a_factor_missing in Ha by done. discriminate.
  - intros [-> | ->]; eexists.
    + apply getitem_a_factor_1.
    + apply getitem_a_factor_2.
Qed.

(** ** The library operations on the arguments the code gives them *)

Lemma half_angle (x : R) : 0.5 * x = x / 2.
Proof. lra. Qed.

Lemma cos_half_pos (theta : R) : 0 <= theta < PI -> 0 < cos (theta / 2).
Proof. intros [H0 H1]. apply cos_gt_0; lra. Qed.

Lemma tan_half_nonneg (theta : R) : 0 <= theta < PI -> 0 <= tan (theta / 2).
Proof.
  intros [[H0 | <-] H1].
  - left. apply tan_gt_0; lra.
  - replace (0 / 2) with 0 by lra. rewrite tan_0. lra.
Qed.

Lemma math_tan_half (theta : R) :
  0 <= theta < PI -> math_tan (0.5 * theta) = Ok (tan (theta / 2)).
Proof.
  intros H. unfold math_tan. rewrite half_angle.
  pose proof (cos_half_pos theta H).
  case_decide; [lra | reflexivity].
Qed.

Lemma py_pow_nonneg (x y : R) :
  0 <= x -> 0 < y -> py_pow x y = Ok (PyFloat (real_pow x y)).
Proof.
  intros Hx Hy. unfold py_pow, real_pow.
  repeat case_decide; try lra; reflexivity.
Qed.

(** [real_pow] is the power function: it is [exp (y * ln x)] on a positive
    base, [0] at [0], multiplicative in the exponent and the identity at
    exponent [1]. *)
Lemma real_pow_pos (x y : R) : 0 < x -> real_pow x y = exp (y * ln x).
Proof. intros Hx. unfold real_pow. case_decide; [lra | reflexivity]. Qed.

Lemma real_pow_0 (y : R) : real_pow 0 y = 0.
Proof. unfold real_pow. case_decide; [reflexivity | lra]. Qed.

Lemma real_pow_1 (x : R) : 0 <= x -> real_pow x 1 = x.
Proof.
  intros Hx. unfold real_pow. case_decide; [lra|].
  apply Rpower_1. lra.
Qed.

Lemma real_pow_plus (x y z : R) :
  real_pow x (y + z) = real_pow x y * real_pow x z.
Proof.
  unfold real_pow. case_decide; [lra|]. apply Rpower_plus.
Qed.

Lemma real_pow_nonneg (x y : R) : 0 <= real_pow x y.
Proof.
  unfold real_pow. case_decide; [lra|].
  left. apply exp_pos.
Qed.

(** ** [phase_func] *)

Lemma phase_func_closed (index : Z) (a b theta : R) :
  getitem a_factor index = Ok a -> getitem b_factor index = Ok b -> 0 < b ->
  0 <= theta < PI ->
  phase_func index theta = Ok (exp (- (a * real_pow (tan (theta / 2)) b))).
Proof.
  intros Ha Hb Hb0 Htheta. unfold phase_func.
  rewrite Ha, bind_Ok, (math_tan_half _ Htheta), bind_Ok, Hb, bind_Ok.
  rewrite py_pow_nonneg by (auto using tan_half_nonneg).
  rewrite bind_Ok. simpl. f_equal. f_equal. lra.
Qed.

Lemma phase_func_1 (theta : R) :
  0 <= theta < PI ->
  phase_func 1 theta = Ok (exp (- (3.33 * real_pow (tan (theta / 2)) 0.63))).
Proof.
  apply phase_func_closed;
    [apply getitem_a_factor_1 | apply getitem_b_factor_1 | lra].
Qed.

Lemma phase_func_2 (theta : R) :
  0 <= theta < PI ->
  phase_func 2 theta = Ok (exp (- (1.87 * real_pow (tan (theta / 2)) 1.22))).
Proof.
  apply phase_func_closed;
    [apply getitem_a_factor_2 | apply getitem_b_factor_2 | lra].
Qed.

(** C3: on a phase angle in [[0, PI)], [phase_func] returns
    [exp (- A * tan (theta / 2) ^ B)] with [(A, B) = (3.33, 0.63)] for index
    1 and [(1.87, 1.22)] for index 2. *)
Theorem phase_func_spec (theta : R) :
  0 <= theta < PI ->
  phase_func 1 theta = Ok (exp (- (3.33 * real_pow (tan (theta / 2)) 0.63))) /\
  phase_func 2 theta = Ok (exp (- (1.87 * real_pow (tan (theta / 2)) 1.22))).
Proof.
  intros H. split; [apply phase_func_1 | apply phase_func_2]; exact H.
Qed.

(** C10: an index other than 1 and 2 is not a key of [a_factor], whose
    subscript is evaluated first: [phase_func] raises [KeyError] whatever
    the phase angle. *)
Theorem phase_func_KeyError (index : Z) (phase_angle : R) :
  index <> 1%Z -> index <> 2%Z ->
  phase_func index phase_angle = Raise KeyError.
Proof.
  intros H1 H2. unfold phase_func.
  rewrite getitem_a_factor_missing by assumption. reflexivity.
Qed.

Lemma phase_func_KeyError_witness : phase_func 3 (PI / 4) = Raise KeyError.
Proof. apply (phase_func_KeyError 3 (PI / 4)); lia. Defined.

Lemma phase_func_spec_witness :
  phase_func 1 (PI / 4) = Ok (exp (- (3.33 * real_pow (tan (PI / 4 / 2)) 0.63))) /\
  phase_func 2 (PI / 4) = Ok (exp (- (1.87 * real_pow (tan (PI / 4 / 2)) 1.22))).
Proof. apply (phase_func_spec (PI / 4)). pose proof PI_RGT_0. lra. Defined.

(** *** Phase angles from [PI] on *)

Lemma not_integral_0_63 : is_integral 0.63 = false.
Proof.
  unfold is_integral. rewrite <- (Int_part_spec 0.63 0) by lra.
  case_bool_decide; [lra | reflexivity].
Qed.

Lemma not_integral_1_22 : is_integral 1.22 = false.
Proof.
  unfold is_integral. rewrite <- (Int_part_spec 1.22 1) by lra.
  case_bool_decide; [lra | reflexivity].
Qed.

(** A negative base to a fractional power is complex. *)
Lemma py_pow_complex (x y : R) :
  x < 0 -> is_integral y = false -> py_pow x y = Ok PyComplex.
Proof.
  intros Hx Hy. unfold py_pow. rewrite Hy.
  assert (y <> 0) as Hy0.
  { intros ->. unfold is_integral in Hy.
    rewrite <- (Int_part_spec 0 0) in Hy by lra.
    case_bool_decide; [discriminate | lra]. }
  repeat case_decide; try lra; reflexivity.
Qed.

Lemma phase_func_pole (index : Z) (a theta : R) :
  getitem a_factor index = Ok a -> cos (theta / 2) = 0 ->
  phase_func index theta = Raise ValueError.
Proof.
  intros Ha Hcos. unfold phase_func, math_tan.
  rewrite Ha, bind_Ok, half_angle.
  case_decide; [reflexivity | contradiction].
Qed.

Lemma phase_func_tan_neg (index : Z) (a b theta : R) :
  getitem a_factor index = Ok a -> getitem b_factor index = Ok b ->
  is_integral b = false ->
  cos (theta / 2) <> 0 -> tan (theta / 2) < 0 ->
  phase_func index theta = Raise TypeError.
Proof.
  intros Ha Hb Hint Hcos Htan. unfold phase_func, math_tan.
  rewrite Ha, bind_Ok, half_angle.
  case_decide; [contradiction|].
  rewrite bind_Ok, Hb, bind_Ok, py_pow_complex by assumption.
  reflexivity.
Qed.

Lemma tan_second_quadrant (x : R) : PI / 2 < x < PI -> cos x < 0 /\ tan x < 0.
Proof.
  intros [H1 H2].
  assert (cos x < 0) as Hc by (apply cos_lt_0; lra).
  assert (0 < sin x) as Hs by (apply sin_gt_0; lra).
  split; [exact Hc|].
  unfold tan, Rdiv.
  assert (/ cos x < 0) by (apply Rinv_lt_0_compat; exact Hc).
  nra.
Qed.

Lemma tan_5PI4 : cos (PI + PI / 4) <> 0 /\ tan (PI + PI / 4) = 1.
Proof.
  assert (cos (PI / 4) <> 0) as Hc.
  { pose proof (cos_gt_0 (PI / 4)). pose proof PI_RGT_0. lra. }
  split.
  - rewrite Rtrigo_facts.cos_pi_plus. lra.
  - rewrite Rtrigo_facts.tan_pi_plus by exact Hc. apply tan_PI4.
Qed.

Lemma py_pow_base_1 (y : R) : py_pow 1 y = Ok (PyFloat 1).
Proof.
  unfold py_pow. repeat case_decide; try lra; try reflexivity.
  unfold Rpower. rewrite ln_1, Rmult_0_r, exp_0. reflexivity.
Qed.

(** At [5 * PI / 2], which is past [PI], the half angle has tangent [1] and
    [phase_func] returns [exp (- A)]. *)
Lemma phase_func_5PI2 (index : Z) (a b : R) :
  getitem a_factor index = Ok a -> getitem b_factor index = Ok b ->
  phase_func index (5 * PI / 2) = Ok (exp (- a)).
Proof.
  intros Ha Hb. unfold phase_func, math_tan.
  replace (0.5 * (5 * PI / 2)) with (PI + PI / 4) by lra.
  destruct tan_5PI4 as [Hc Ht].
  rewrite Ha, bind_Ok. case_decide; [contradiction|].
  rewrite bind_Ok, Hb, bind_Ok, Ht, py_pow_base_1, bind_Ok.
  simpl. f_equal. f_equal. lra.
Qed.


(** The tangent has period [PI], and so have the zeros of the cosine. *)
Lemma trig_shift (k : nat) (x : R) :
  cos x <> 0 -> cos (x + INR k * PI) <> 0 /\ tan (x + INR k * PI) = tan x.
Proof.
  intros Hc. induction k as [|k [IHc IHt]].
  - simpl. rewrite Rmult_0_l, Rplus_0_r. auto.
  - rewrite S_INR.
    replace (x + (INR k + 1) * PI) with (PI + (x + INR k * PI)) by ring.
    split.
    + rewrite Rtrigo_facts.cos_pi_plus. lra.
    + rewrite Rtrigo_facts.tan_pi_plus by exact IHc. exact IHt.
Qed.

Lemma phase_func_tan_nonneg (index : Z) (a b theta : R) :
  getitem a_factor index = Ok a -> getitem b_factor index = Ok b -> 0 < b ->
  cos (theta / 2) <> 0 -> 0 <= tan (theta / 2) ->
  phase_func index theta = Ok (exp (- (a * real_pow (tan (theta / 2)) b))).
Proof.
  intros Ha Hb Hb0 Hcos Htan. unfold phase_func, math_tan.
  rewrite Ha, bind_Ok, half_angle.
  case_decide; [contradiction|].
  rewrite bind_Ok, Hb, bind_Ok, py_pow_nonneg by assumption.
  rewrite bind_Ok. simpl. f_equal. f_equal. lra.
Qed.



(** ** Vectors: norm and dot product *)

Lemma np_linalg_norm_sqrt (v : list R) : np_linalg_norm v = sqrt (sum_sq v).
Proof. reflexivity. Qed.

Lemma sum_sq_cons (x : R) (v : list R) : sum_sq (x :: v) = x * x + sum_sq v.
Proof. reflexivity. Qed.

Lemma dotp_cons (x y : R) (v w : list R) :
  dotp (x :: v) (y :: w) = x * y + dotp v w.
Proof. reflexivity. Qed.

Lemma dotp_nil_r (v : list R) : dotp v [] = 0.
Proof. destruct v; reflexivity. Qed.

Lemma sum_sq_nonneg (v : list R) : 0 <= sum_sq v.
Proof.
  induction v as [|x v IH]; [apply Rle_refl|].
  rewrite sum_sq_cons. nra.
Qed.

Lemma sum_sq_pos (v : list R) : nonzero v -> 0 < sum_sq v.
Proof.
  induction 1 as [x v Hx | x v _ IH]; rewrite sum_sq_cons.
  - pose proof (sum_sq_nonneg v). nra.
  - nra.
Qed.

Lemma sum_sq_zero (v : list R) : sum_sq v = 0 -> Forall (fun x => x = 0) v.
Proof.
  induction v as [|x v IH]; [constructor|].
  rewrite sum_sq_cons. intros H. pose proof (sum_sq_nonneg v).
  constructor; [nra | apply IH; nra].
Qed.

Lemma norm_nonneg (v : list R) : 0 <= np_linalg_norm v.
Proof. apply sqrt_pos. Qed.

Lemma norm_pos (v : list R) : nonzero v -> 0 < np_linalg_norm v.
Proof. intros H. apply sqrt_lt_R0, sum_sq_pos, H. Qed.

Lemma sum_sq_all_zero (v : list R) : Forall (fun x => x = 0) v -> sum_sq v = 0.
Proof.
  induction 1 as [|x v -> _ IH]; [reflexivity|].
  rewrite sum_sq_cons, IH. lra.
Qed.

(** A vector has zero length exactly when it is not [nonzero]. *)
Lemma norm_zero_iff (v : list R) : np_linalg_norm v = 0 <-> ~ nonzero v.
Proof.
  split.
  - intros H Hnz. pose proof (norm_pos v Hnz). lra.
  - intros Hnz. rewrite np_linalg_norm_sqrt, sum_sq_all_zero; [apply sqrt_0|].
    apply Forall_Exists_neg in Hnz.
    eapply Forall_impl; [exact Hnz|].
    intros x Hx. simpl in Hx. destruct (decide (x = 0)); tauto.
Qed.

Lemma norm_sqr (v : list R) : np_linalg_norm v * np_linalg_norm v = sum_sq v.
Proof. apply sqrt_sqrt, sum_sq_nonneg. Qed.

(** The inequality of Cauchy and Schwarz, for [zip]'s dot product. *)
Lemma dotp_sqr_le (v w : list R) : dotp v w * dotp v w <= sum_sq v * sum_sq w.
Proof.
  revert w. induction v as [|a v IH]; intros [|b w].
  - unfold dotp, sum_sq. simpl. lra.
  - unfold dotp, sum_sq at 1. simpl. lra.
  - rewrite dotp_nil_r. unfold sum_sq at 2. simpl. lra.
  - rewrite dotp_cons, !sum_sq_cons.
    specialize (IH w).
    pose proof (sum_sq_nonneg v) as HA. pose proof (sum_sq_nonneg w) as HB.
    set (D := dotp v w) in *. set (A := sum_sq v) in *. set (B := sum_sq w) in *.
    assert (2 * (a * b * D) <= a * a * B + A * (b * b)) as Hmix.
    { destruct HA as [HA | <-].
      - apply Rmult_le_reg_l with A; [exact HA|].
        pose proof (Rle_0_sqr (a * D - A * b)) as Hsq. unfold Rsqr in Hsq.
        nra.
      - assert (D = 0) by nra. nra. }
    nra.
Qed.

Lemma dotp_bounds (v w : list R) :
  - (np_linalg_norm v * np_linalg_norm w) <= dotp v w
    <= np_linalg_norm v * np_linalg_norm w.
Proof.
  pose proof (dotp_sqr_le v w) as H.
  rewrite <- (norm_sqr v), <- (norm_sqr w) in H.
  pose proof (norm_nonneg v). pose proof (norm_nonneg w).
  set (n := np_linalg_norm v * np_linalg_norm w).
  assert (0 <= n) by (unfold n; nra).
  assert (dotp v w * dotp v w <= n * n) by (unfold n; nra).
  split; nra.
Qed.

(** The quotient [hg_app_mag] hands to [math.acos] is a cosine. *)
Lemma cos_angle_bounds (v w : list R) :
  nonzero v -> nonzero w ->
  -1 <= dotp v w / (np_linalg_norm v * np_linalg_norm w) <= 1.
Proof.
  intros Hv Hw. pose proof (norm_pos v Hv). pose proof (norm_pos w Hw).
  pose proof (dotp_bounds v w) as [Hlo Hhi].
  assert (0 < np_linalg_norm v * np_linalg_norm w) as Hn by nra.
  split.
  - apply Rmult_le_reg_r with (np_linalg_norm v * np_linalg_norm w); [exact Hn|].
    unfold Rdiv. rewrite Rmult_assoc, Rinv_l by lra. lra.
  - apply Rmult_le_reg_r with (np_linalg_norm v * np_linalg_norm w); [exact Hn|].
    unfold Rdiv. rewrite Rmult_assoc, Rinv_l by lra. lra.
Qed.

(** ** [obj_phase_angle] *)

Lemma float64_divide_nonzero (x y : R) :
  y <> 0 -> float64_divide x y = Num (x / y).
Proof. intros Hy. unfold float64_divide. case_decide; [contradiction | reflexivity]. Qed.

Lemma float64_divide_0_0 : float64_divide 0 0 = NaN.
Proof. unfold float64_divide. repeat case_decide; try reflexivity; lra. Qed.

Lemma obj_phase_angle_nonzero (v w : list R) :
  nonzero v -> nonzero w ->
  obj_phase_angle v w
  = Ok (Num (acos (dotp v w / (np_linalg_norm v * np_linalg_norm w)))).
Proof.
  intros Hv Hw. unfold obj_phase_angle.
  pose proof (norm_pos v Hv). pose proof (norm_pos w Hw).
  pose proof (cos_angle_bounds v w Hv Hw).
  rewrite float64_divide_nonzero by nra.
  unfold math_acos_float64, math_acos.
  case_decide; [reflexivity | contradiction].
Qed.

(** The dot product with a vector of zero length is zero. *)
Lemma dotp_zero_length (v w : list R) :
  np_linalg_norm v = 0 \/ np_linalg_norm w = 0 -> dotp v w = 0.
Proof.
  intros H. pose proof (dotp_bounds v w) as [Hlo Hhi].
  assert (np_linalg_norm v * np_linalg_norm w = 0) as Hn
    by (destruct H as [-> | ->]; lra).
  lra.
Qed.

(** On a vector of zero length the quotient is [0 / 0]: numpy hands back
    nan, and [math.acos] hands it on. *)
Lemma obj_phase_angle_zero_length (v w : list R) :
  np_linalg_norm v = 0 \/ np_linalg_norm w = 0 ->
  obj_phase_angle v w = Ok NaN.
Proof.
  intros H. unfold obj_phase_angle.
  rewrite (dotp_zero_length v w H).
  replace (np_linalg_norm v * np_linalg_norm w) with 0
    by (destruct H as [-> | ->]; lra).
  rewrite float64_divide_0_0. reflexivity.
Qed.

Lemma phase_func_at_0 (index : Z) (a b : R) :
  getitem a_factor index = Ok a -> getitem b_factor index = Ok b -> 0 < b ->
  phase_func index 0 = Ok 1.
Proof.
  intros Ha Hb Hb0.
  rewrite (phase_func_closed index a b 0 Ha Hb Hb0)
    by (pose proof PI_RGT_0; lra).
  replace (0 / 2) with 0 by lra.
  rewrite tan_0, real_pow_0, Rmult_0_r, Ropp_0, exp_0. reflexivity.
Qed.

(** The vectors of the docstring example of [hg_app_mag]. *)
Lemma norm_doctest_obs : np_linalg_norm [-1; 0; 0] = 1.
Proof.
  unfold np_linalg_norm, sum_sq, sum_list. simpl.
  replace (-1 * -1 + (0 * 0 + (0 * 0 + 0))) with (1 * 1) by lra.
  apply sqrt_square. lra.
Qed.

Lemma norm_doctest_ill : np_linalg_norm [-2; 0; 0] = 2.
Proof.
  unfold np_linalg_norm, sum_sq, sum_list. simpl.
  replace (-2 * -2 + (0 * 0 + (0 * 0 + 0))) with (2 * 2) by lra.
  apply sqrt_square. lra.
Qed.

Lemma nonzero_head (x : R) (v : list R) : x <> 0 -> nonzero (x :: v).
Proof. intros H. left. exact H. Qed.

(** ** [reduc_mag] *)

Lemma math_log10_pos (x : R) : 0 < x -> math_log10 x = Ok (log10 x).
Proof. intros H. unfold math_log10. case_decide; [reflexivity | contradiction]. Qed.

Lemma math_log10_nonpos (x : R) : x <= 0 -> math_log10 x = Raise ValueError.
Proof. intros H. unfold math_log10. case_decide; [lra | reflexivity]. Qed.

Lemma reduc_mag_default (abs_mag phase_angle : R) :
  reduc_mag abs_mag phase_angle None = reduc_mag abs_mag phase_angle (Some 0.15).
Proof. reflexivity. Qed.

Lemma reduc_mag_closed (abs_mag phase_angle slope_g phi1 phi2 : R) :
  phase_func 1 phase_angle = Ok phi1 -> phase_func 2 phase_angle = Ok phi2 ->
  0 < (1 - slope_g) * phi1 + slope_g * phi2 ->
  reduc_mag abs_mag phase_angle (Some slope_g)
  = Ok (abs_mag - 2.5 * log10 ((1 - slope_g) * phi1 + slope_g * phi2)).
Proof.
  intros H1 H2 Hpos. unfold reduc_mag. simpl default.
  rewrite H1, bind_Ok, H2, bind_Ok.
  replace (1.0 - slope_g) with (1 - slope_g) by lra.
  rewrite (math_log10_pos _ Hpos). reflexivity.
Qed.

(** The logarithm refuses a combination that is not positive. *)
Lemma reduc_mag_ValueError (abs_mag phase_angle slope_g phi1 phi2 : R) :
  phase_func 1 phase_angle = Ok phi1 -> phase_func 2 phase_angle = Ok phi2 ->
  (1 - slope_g) * phi1 + slope_g * phi2 <= 0 ->
  reduc_mag abs_mag phase_angle (Some slope_g) = Raise ValueError.
Proof.
  intros H1 H2 Hneg. unfold reduc_mag. simpl default.
  rewrite H1, bind_Ok, H2, bind_Ok.
  replace (1.0 - slope_g) with (1 - slope_g) by lra.
  rewrite (math_log10_nonpos _ Hneg). reflexivity.
Qed.

(** C2: on a phase angle in [[0, PI)] both phase functions have a value,
    and when [(1 - g) * phase_func(1) + g * phase_func(2)] is positive
    [reduc_mag] returns [H - 2.5 * log10] of it; an omitted slope parameter
    is [0.15]. *)
Theorem reduc_mag_spec (abs_mag theta slope_g : R) :
  0 <= theta < PI ->
  exists phi1 phi2 : R,
    phase_func 1 theta = Ok phi1 /\ phase_func 2 theta = Ok phi2 /\
    (0 < (1 - slope_g) * phi1 + slope_g * phi2 ->
     reduc_mag abs_mag theta (Some slope_g)
     = Ok (abs_mag - 2.5 * log10 ((1 - slope_g) * phi1 + slope_g * phi2))) /\
    reduc_mag abs_mag theta None = reduc_mag abs_mag theta (Some 0.15).
Proof.
  intros Htheta.
  pose proof (phase_func_1 theta Htheta) as H1.
  pose proof (phase_func_2 theta Htheta) as H2.
  eexists _, _. split; [exact H1|]. split; [exact H2|]. split.
  - apply reduc_mag_closed; assumption.
  - apply reduc_mag_default.
Qed.

Lemma reduc_mag_spec_witness :
  exists phi1 phi2 : R,
    phase_func 1 0 = Ok phi1 /\ phase_func 2 0 = Ok phi2 /\
    (0 < (1 - 0.15) * phi1 + 0.15 * phi2 ->
     reduc_mag 10 0 (Some 0.15)
     = Ok (10 - 2.5 * log10 ((1 - 0.15) * phi1 + 0.15 * phi2))) /\
    reduc_mag 10 0 None = reduc_mag 10 0 (Some 0.15).
Proof. apply (reduc_mag_spec 10 0 0.15). pose proof PI_RGT_0. lra. Defined.

(** ** [hg_app_mag] *)

Lemma hg_app_mag_default (abs_mag : R) (v1 v2 : list R) :
  hg_app_mag abs_mag v1 v2 None = hg_app_mag abs_mag v1 v2 (Some 0.15).
Proof. reflexivity. Qed.

Lemma hg_app_mag_nonzero (abs_mag slope_g : R) (v1 v2 : list R) :
  nonzero v1 -> nonzero v2 ->
  hg_app_mag abs_mag v1 v2 (Some slope_g)
  = (red_mag ← reduc_mag abs_mag
                 (acos (dotp v1 v2 / (np_linalg_norm v1 * np_linalg_norm v2)))
                 (Some slope_g);
     Ok (red_mag + 5 * log10 (np_linalg_norm v1 * np_linalg_norm v2))).
Proof.
  intros H1 H2. unfold hg_app_mag. simpl default.
  rewrite obj_phase_angle_nonzero, bind_Ok by assumption.
  pose proof (norm_pos v1 H1). pose proof (norm_pos v2 H2).
  rewrite math_log10_pos by nra.
  unfold reduc_mag_float64.
  destruct (reduc_mag _ _ _) as [r | e]; [|reflexivity].
  rewrite !bind_Ok. do 2 f_equal. lra.
Qed.


Lemma norm_zero_vector : np_linalg_norm [0; 0; 0] = 0.
Proof.
  unfold np_linalg_norm, sum_sq, sum_list. simpl.
  replace (0 * 0 + (0 * 0 + (0 * 0 + 0))) with 0 by lra.
  apply sqrt_0.
Qed.

(** C7: when a vector has zero length, the divisor [|v1| * |v2|] of the
    phase-angle quotient is zero and so is the dot product: the division is
    [0 / 0], for which numpy has no number (nan).  The code runs on with it:
    [math.acos] and [reduc_mag] hand nan on, and the logarithm of the zero
    product in the last statement raises [ValueError].  [hg_app_mag] returns
    no apparent magnitude. *)
Theorem hg_app_mag_zero_length (abs_mag : R) (v1 v2 : list R)
    (slope_g : option R) :
  np_linalg_norm v1 = 0 \/ np_linalg_norm v2 = 0 ->
  np_linalg_norm v1 * np_linalg_norm v2 = 0 /\
  float64_divide (dotp v1 v2) (np_linalg_norm v1 * np_linalg_norm v2) = NaN /\
  obj_phase_angle v1 v2 = Ok NaN /\
  reduc_mag_float64 abs_mag NaN slope_g = Ok NaN /\
  math_log10 (np_linalg_norm v1 * np_linalg_norm v2) = Raise ValueError /\
  hg_app_mag abs_mag v1 v2 slope_g = Raise ValueError /\
  ~ returns (hg_app_mag abs_mag v1 v2 slope_g).
Proof.
  intros H.
  assert (np_linalg_norm v1 * np_linalg_norm v2 = 0) as Hn
    by (destruct H as [-> | ->]; lra).
  assert (math_log10 (np_linalg_norm v1 * np_linalg_norm v2) = Raise ValueError)
    as Hlog by (apply math_log10_nonpos; lra).
  assert (hg_app_mag abs_mag v1 v2 slope_g = Raise ValueError) as Hr.
  { unfold hg_app_mag. rewrite obj_phase_angle_zero_length by exact H.
    rewrite bind_Ok. unfold reduc_mag_float64. rewrite bind_Ok, Hlog.
    reflexivity. }
  repeat split.
  - exact Hn.
  - rewrite (dotp_zero_length v1 v2 H), Hn. apply float64_divide_0_0.
  - apply obj_phase_angle_zero_length, H.
  - exact Hlog.
  - exact Hr.
  - rewrite Hr. intros [a Ha]. discriminate.
Qed.

Lemma hg_app_mag_zero_length_witness :
  hg_app_mag 10 [0; 0; 0] [-2; 0; 0] (Some 0.10) = Raise ValueError.
Proof.
  apply (hg_app_mag_zero_length 10 [0; 0; 0] [-2; 0; 0] (Some 0.10)).
  left. apply norm_zero_vector.
Defined.

(** *** The docstring example of [hg_app_mag] *)

Lemma log10_1 : log10 1 = 0.
Proof. unfold log10. rewrite ln_1. lra. Qed.

Lemma reduc_mag_at_0 (abs_mag slope_g : R) :
  reduc_mag abs_mag 0 (Some slope_g) = Ok abs_mag.
Proof.
  rewrite (reduc_mag_closed abs_mag 0 slope_g 1 1).
  - replace ((1 - slope_g) * 1 + slope_g * 1) with 1 by lra.
    rewrite log10_1. f_equal. lra.
  - apply phase_func_at_0 with (a := 3.33) (b := 0.63);
      [apply getitem_a_factor_1 | apply getitem_b_factor_1 | lra].
  - apply phase_func_at_0 with (a := 1.87) (b := 1.22);
      [apply getitem_a_factor_2 | apply getitem_b_factor_2 | lra].
  - lra.
Qed.

Lemma doctest_angle :
  acos (dotp [-1; 0; 0] [-2; 0; 0]
        / (np_linalg_norm [-1; 0; 0] * np_linalg_norm [-2; 0; 0])) = 0.
Proof.
  rewrite norm_doctest_obs, norm_doctest_ill.
  replace (dotp [-1; 0; 0] [-2; 0; 0] / (1 * 2)) with 1
    by (unfold dotp, sum_list; simpl; lra).
  apply acos_1.
Qed.


(** The example evaluates to [10 + 5 * log10 2] (11.505149978...). *)
Lemma hg_app_mag_doctest :
  hg_app_mag 10 [-1; 0; 0] [-2; 0; 0] (Some 0.10) = Ok (10 + 5 * log10 2).
Proof.
  rewrite hg_app_mag_nonzero by (apply nonzero_head; lra).
  rewrite doctest_angle, reduc_mag_at_0, bind_Ok.
  rewrite norm_doctest_obs, norm_doctest_ill.
  replace (1 * 2) with 2 by lra. reflexivity.
Qed.

(** *** Aligned vectors *)

Lemma aligned_angle (v1 v2 : list R) :
  nonzero v1 -> nonzero v2 ->
  dotp v1 v2 = np_linalg_norm v1 * np_linalg_norm v2 ->
  acos (dotp v1 v2 / (np_linalg_norm v1 * np_linalg_norm v2)) = 0.
Proof.
  intros H1 H2 Hdot.
  pose proof (norm_pos v1 H1). pose proof (norm_pos v2 H2).
  rewrite Hdot. unfold Rdiv. rewrite Rinv_r by nra. apply acos_1.
Qed.

Lemma dotp_self (v : list R) : dotp v v = sum_sq v.
Proof.
  induction v as [|x v IH]; [reflexivity|].
  rewrite dotp_cons, sum_sq_cons, IH. reflexivity.
Qed.

(** In exact arithmetic the quotient of aligned vectors is [1] and the
    phase angle [0]. *)
Lemma obj_phase_angle_aligned (v1 v2 : list R) :
  nonzero v1 -> nonzero v2 ->
  dotp v1 v2 = np_linalg_norm v1 * np_linalg_norm v2 ->
  obj_phase_angle v1 v2 = Ok (Num 0).
Proof.
  intros H1 H2 Hdot.
  rewrite obj_phase_angle_nonzero, (aligned_angle v1 v2 H1 H2 Hdot) by assumption.
  reflexivity.
Qed.

Lemma phase_func_at_0_both : phase_func 1 0 = Ok 1 /\ phase_func 2 0 = Ok 1.
Proof.
  split.
  - apply phase_func_at_0 with (a := 3.33) (b := 0.63);
      [apply getitem_a_factor_1 | apply getitem_b_factor_1 | lra].
  - apply phase_func_at_0 with (a := 1.87) (b := 1.22);
      [apply getitem_a_factor_2 | apply getitem_b_factor_2 | lra].
Qed.

(** C8, at the vector [(2.4, -2.8, -2.8)] taken along itself.  In exact
    arithmetic its dot product is [|v| * |v|], the quotient is [1] and the
    phase angle [0], as the claim has it, and [phase_func] is [1] at [0] for
    both indices.  In binary64 arithmetic, in which the code runs, the
    product of the two rounded norms falls below the dot product: the
    quotient is [1.0000000000000002], and [math.acos] raises [ValueError]
    instead of returning the phase angle [0]. *)
Theorem phase_angle_zero_b64 :
  dotp aligned_example aligned_example
  = np_linalg_norm aligned_example * np_linalg_norm aligned_example /\
  obj_phase_angle aligned_example aligned_example = Ok (Num 0) /\
  phase_func 1 0 = Ok 1 /\ phase_func 2 0 = Ok 1 /\
  quotient_b64 aligned_example_b64 aligned_example_b64
  = 1.0000000000000002%float /\
  (forall libm_acos : float -> float,
     obj_phase_angle_b64 libm_acos aligned_example_b64 aligned_example_b64
     = Raise ValueError).
Proof.
  assert (dotp aligned_example aligned_example
          = np_linalg_norm aligned_example * np_linalg_norm aligned_example)
    as Hdot by (rewrite dotp_self, norm_sqr; reflexivity).
  assert (nonzero aligned_example) as Hnz by (apply nonzero_head; lra).
  split; [exact Hdot|].
  split; [apply obj_phase_angle_aligned; assumption|].
  split; [apply phase_func_at_0_both|].
  split; [apply phase_func_at_0_both|].
  split; [vm_compute; reflexivity|].
  intros libm_acos. vm_compute. reflexivity.
Qed.

(** ** Soundness of the bounds of the exponential *)

Lemma IZR_div_floor (a b : Z) : (0 < b)%Z -> IZR (a / b) <= IZR a / IZR b.
Proof.
  intros Hb. assert (0 < IZR b) as Hb' by (apply IZR_lt; exact Hb).
  apply Rmult_le_reg_r with (IZR b); [exact Hb'|].
  unfold Rdiv. rewrite Rmult_assoc, Rinv_l, Rmult_1_r by lra.
  rewrite <- mult_IZR. apply IZR_le.
  rewrite Z.mul_comm. apply Z.mul_div_le. exact Hb.
Qed.

Lemma Q2R_den_pos (x : Q) : 0 < IZR (Z.pos (Qden x)).
Proof. apply IZR_lt. reflexivity. Qed.

Section FixedPoint.

Variable s : Z.
Hypothesis s_pos : (0 < s)%Z.

Let s_pos_R : 0 < IZR s.
Proof. apply IZR_lt. exact s_pos. Qed.

(** Squaring in fixed point stays below squaring the exponential. *)
Lemma square_iter_sound (k : nat) (m : Z) (y : R) :
  (0 <= m)%Z -> IZR m / IZR s <= exp y ->
  IZR (square_iter s k m) / IZR s <= exp (y * 2 ^ k).
Proof.
  revert m y. induction k as [|k IH]; intros m y Hm Hy; simpl.
  - rewrite Rmult_1_r. exact Hy.
  - replace (y * (2 * 2 ^ k)) with ((y + y) * 2 ^ k) by ring.
    apply IH.
    + apply Z.div_pos; [apply Z.mul_nonneg_nonneg; exact Hm | exact s_pos].
    + rewrite exp_plus.
      assert (0 <= IZR m / IZR s) as H0.
      { apply Rmult_le_pos; [apply IZR_le; exact Hm|].
        left. apply Rinv_0_lt_compat. exact s_pos_R. }
      apply Rle_trans with (IZR m / IZR s * (IZR m / IZR s)).
      * pose proof (IZR_div_floor (m * m) s s_pos) as Hfl.
        rewrite mult_IZR in Hfl.
        apply Rmult_le_reg_r with (IZR s); [exact s_pos_R|].
        unfold Rdiv in *.
        replace (IZR m * / IZR s * (IZR m * / IZR s) * IZR s)
          with (IZR m * IZR m * / IZR s) by (field; lra).
        rewrite Rmult_assoc, Rinv_l, Rmult_1_r by lra. exact Hfl.
      * apply Rmult_le_compat; assumption.
Qed.

(** The base [1 + x / 2 ^ k], rounded down, is below [exp (x / 2 ^ k)]. *)
Lemma exp_base_sound (k : nat) (x : Q) :
  IZR (exp_base s k x) / IZR s <= exp (Q2R x / 2 ^ k).
Proof.
  destruct x as [n d]. unfold Q2R, exp_base. simpl Qnum. simpl Qden.
  pose proof (Q2R_den_pos (n # d)) as Hd. simpl Qden in Hd.
  assert (0 < 2 ^ k) as Hk by (apply pow_lt; lra).
  apply Rle_trans with (1 + IZR n * / IZR (Z.pos d) / 2 ^ k);
    [|apply exp_ineq1_le].
  rewrite plus_IZR.
  assert (0 < Z.pos d * 2 ^ Z.of_nat k)%Z as Hden by lia.
  pose proof (IZR_div_floor (n * s) (Z.pos d * 2 ^ Z.of_nat k) Hden) as Hfl.
  rewrite !mult_IZR in Hfl.
  replace (IZR (2 ^ Z.of_nat k)) with (2 ^ k) in Hfl
    by (rewrite <- pow_IZR; reflexivity).
  unfold Rdiv in *.
  apply Rmult_le_reg_r with (IZR s); [exact s_pos_R|].
  rewrite Rmult_assoc, Rinv_l, Rmult_1_r by lra.
  replace ((1 + IZR n * / IZR (Z.pos d) * / 2 ^ k) * IZR s)
    with (IZR s + IZR n * IZR s * / (IZR (Z.pos d) * 2 ^ k)) by (field; lra).
  lra.
Qed.

Lemma exp_lb_sound (k : nat) (x : Q) :
  (0 <= exp_base s k x)%Z -> IZR (exp_lb s k x) / IZR s <= exp (Q2R x).
Proof.
  intros Hbase.
  assert (0 < 2 ^ k) as Hk by (apply pow_lt; lra).
  replace (Q2R x) with (Q2R x / 2 ^ k * 2 ^ k) by (field; lra).
  apply square_iter_sound; [exact Hbase | apply exp_base_sound].
Qed.

End FixedPoint.

Lemma check_exp_lower_sound (s : Z) (k : nat) (a x : Q) :
  check_exp_lower s k a x = true -> Q2R a <= exp (Q2R x).
Proof.
  unfold check_exp_lower. intros H.
  apply andb_prop in H. destruct H as [H Hle].
  apply andb_prop in H. destruct H as [Hs Hbase].
  apply Z.ltb_lt in Hs. apply Z.leb_le in Hbase. apply Z.leb_le in Hle.
  eapply Rle_trans; [|apply (exp_lb_sound s Hs k x Hbase)].
  apply IZR_lt in Hs. pose proof (Q2R_den_pos a) as Hb.
  apply IZR_le in Hle. rewrite !mult_IZR in Hle.
  unfold Q2R, Rdiv.
  set (L := IZR (exp_lb s k x)) in *. set (S := IZR s) in *.
  set (n := IZR (Qnum a)) in *. set (d := IZR (Z.pos (Qden a))) in *.
  clearbody L S n d.
  apply Rmult_le_reg_r with (S * d); [nra|].
  replace (n * / d * (S * d)) with (n * S) by (field; lra).
  replace (L * / S * (S * d)) with (L * d) by (field; lra).
  exact Hle.
Qed.

Lemma check_exp_upper_sound (s : Z) (k : nat) (a x : Q) :
  check_exp_upper s k a x = true -> exp (Q2R x) <= Q2R a.
Proof.
  unfold check_exp_upper. intros H.
  apply andb_prop in H. destruct H as [H Hle].
  apply andb_prop in H. destruct H as [H Hpos].
  apply andb_prop in H. destruct H as [Hs Hbase].
  apply Z.ltb_lt in Hs. apply Z.leb_le in Hbase.
  apply Z.leb_le in Hle. apply Z.ltb_lt in Hpos.
  pose proof (exp_lb_sound s Hs k (Qopp x) Hbase) as Hlb.
  rewrite Q2R_opp, exp_Ropp in Hlb.
  apply IZR_lt in Hs. pose proof (Q2R_den_pos a) as Hb.
  apply IZR_lt in Hpos. apply IZR_le in Hle. rewrite !mult_IZR in Hle.
  pose proof (exp_pos (Q2R x)) as He.
  unfold Q2R at 2.
  set (L := IZR (exp_lb s k (Qopp x))) in *. set (S := IZR s) in *.
  set (n := IZR (Qnum a)) in *. set (d := IZR (Z.pos (Qden a))) in *.
  set (E := exp (Q2R x)) in *.
  clearbody L S n d E.
  assert (L * E <= S) as HLE.
  { apply Rmult_le_reg_r with (/ E); [apply Rinv_0_lt_compat; exact He|].
    rewrite Rmult_assoc, Rinv_r, Rmult_1_r by lra.
    apply Rmult_le_reg_r with (/ S); [apply Rinv_0_lt_compat; lra|].
    replace (S * / E * / S) with (/ E) by (field; lra).
    exact Hlb. }
  apply Rmult_le_reg_r with (d * L); [nra|].
  replace (n * / d * (d * L)) with (L * n) by (field; lra).
  nra.
Qed.

Ltac exp_lower :=
  apply (check_exp_lower_sound scale steps); vm_compute; reflexivity.
Ltac exp_upper :=
  apply (check_exp_upper_sound scale steps); vm_compute; reflexivity.

(** The checks on Euler's number. *)
Lemma exp_1_bounds :
  2.718281828459045235 <= exp 1.0 <= 2.718281828459045236.
Proof. split; [exp_lower | exp_upper]. Qed.

(** *** Monotonicity, to carry bounds through [exp], [ln] and [log10] *)

Lemma exp_between (x lo hi a b : R) :
  lo <= x <= hi -> a <= exp lo -> exp hi <= b -> a <= exp x <= b.
Proof.
  intros [Hlo Hhi] Ha Hb. split.
  - apply Rle_trans with (exp lo); [exact Ha|].
    destruct Hlo as [Hlt | ->];
      [left; apply exp_increasing; exact Hlt | apply Rle_refl].
  - apply Rle_trans with (exp hi); [|exact Hb].
    destruct Hhi as [Hlt | ->];
      [left; apply exp_increasing; exact Hlt | apply Rle_refl].
Qed.

Lemma ln_between (x lo hi a b : R) :
  exp lo <= a -> a <= x <= b -> b <= exp hi -> lo <= ln x <= hi.
Proof.
  intros Ha [Hax Hxb] Hb.
  assert (0 < x) as Hx by (pose proof (exp_pos lo); lra).
  split.
  - destruct (Rle_lt_dec lo (ln x)) as [H | H]; [exact H|].
    apply exp_increasing in H. rewrite exp_ln in H by exact Hx. lra.
  - destruct (Rle_lt_dec (ln x) hi) as [H | H]; [exact H|].
    apply exp_increasing in H. rewrite exp_ln in H by exact Hx. lra.
Qed.

(** The decimal logarithm of a number below 1, from bounds of its natural
    logarithm and of [ln 10]. *)
Lemma log10_between (x a_lo a_hi c_lo c_hi q_lo q_hi : R) :
  a_lo <= ln x <= a_hi -> c_lo <= ln 10 <= c_hi -> 0 < c_lo ->
  q_lo <= 0 -> q_hi <= 0 ->
  q_lo * c_lo <= a_lo -> a_hi <= q_hi * c_hi ->
  q_lo <= log10 x <= q_hi.
Proof.
  intros [Ha1 Ha2] [Hc1 Hc2] Hc Hq1 Hq2 Hlo Hhi. unfold log10.
  set (A := ln x) in *. set (C := ln 10) in *.
  assert (0 < C) as HC by lra.
  assert (A / C * C = A) as Hq by (field; lra).
  set (q := A / C) in *.
  split.
  - destruct (Rle_lt_dec q_lo q) as [H | H]; [exact H | exfalso; nra].
  - destruct (Rle_lt_dec q q_hi) as [H | H]; [exact H | exfalso; nra].
Qed.

(** ** The docstring examples at the phase angle [PI / 4] *)

Lemma tan_PI8 : tan (PI / 4 / 2) = sqrt 2 - 1.
Proof.
  set (x := PI / 4 / 2).
  assert (0 < cos x) as Hcx.
  { apply cos_gt_0; unfold x; pose proof PI_RGT_0; lra. }
  assert (1 / sqrt 2 = 2 * sin x * cos x) as Hs.
  { rewrite <- sin_2a, <- sin_PI4. f_equal. unfold x. lra. }
  assert (1 / sqrt 2 = 2 * cos x * cos x - 1) as Hc.
  { rewrite <- cos_2a_cos, <- cos_PI4. f_equal. unfold x. lra. }
  pose proof Rlt_sqrt2_0 as Hr.
  assert (sqrt 2 * sqrt 2 = 2) as Hrr by (apply sqrt_sqrt; lra).
  assert (sqrt 2 * (1 / sqrt 2) = 1) as Hinv by (field; lra).
  set (r := sqrt 2) in *. set (i := 1 / r) in *.
  unfold tan.
  apply Rmult_eq_reg_r with (2 * cos x * cos x); [|nra].
  replace (sin x / cos x * (2 * cos x * cos x)) with (2 * sin x * cos x)
    by (field; lra).
  rewrite <- Hs.
  replace (2 * cos x * cos x) with (i + 1) by lra.
  nra.
Qed.

Lemma sqrt_2_bounds : 1.41421356237309504880 <= sqrt 2 <= 1.41421356237309504881.
Proof.
  assert (sqrt 2 * sqrt 2 = 2) as Hrr by (apply sqrt_sqrt; lra).
  pose proof (sqrt_pos 2) as Hr.
  split; apply Rsqr_incr_0_var; unfold Rsqr; lra.
Qed.

Lemma ln_tan_PI8_bounds :
  -0.88137358701954302527 <= ln (sqrt 2 - 1) <= -0.88137358701954302518.
Proof.
  apply ln_between with (a := 0.41421356237309504880) (b := 0.41421356237309504881).
  - exp_upper.
  - pose proof sqrt_2_bounds. lra.
  - exp_lower.
Qed.

Lemma real_pow_tan_PI8 (b : R) :
  real_pow (tan (PI / 4 / 2)) b = exp (b * ln (sqrt 2 - 1)).
Proof.
  rewrite tan_PI8. apply real_pow_pos. pose proof sqrt_2_bounds. lra.
Qed.

Lemma pow_0_63_bounds :
  0.57391994569331183641 <= real_pow (tan (PI / 4 / 2)) 0.63 <= 0.57391994569331183652.
Proof.
  rewrite real_pow_tan_PI8.
  apply exp_between with (lo := -0.55526535982231210593) (hi := -0.55526535982231210586).
  - pose proof ln_tan_PI8_bounds. lra.
  - exp_lower.
  - exp_upper.
Qed.

Lemma pow_1_22_bounds :
  0.34120364649238826087 <= real_pow (tan (PI / 4 / 2)) 1.22 <= 0.34120364649238826099.
Proof.
  rewrite real_pow_tan_PI8.
  apply exp_between with (lo := -1.07527577616384249083) (hi := -1.07527577616384249071).
  - pose proof ln_tan_PI8_bounds. lra.
  - exp_lower.
  - exp_upper.
Qed.

Lemma phi1_PI4_bounds :
  0.14790968630394928107
  <= exp (- (3.33 * real_pow (tan (PI / 4 / 2)) 0.63))
  <= 0.14790968630394928119.
Proof.
  apply exp_between with (lo := -1.91115341915872841562) (hi := -1.91115341915872841524).
  - pose proof pow_0_63_bounds. lra.
  - exp_lower.
  - exp_upper.
Qed.

Lemma phi2_PI4_bounds :
  0.52832121477264856991
  <= exp (- (1.87 * real_pow (tan (PI / 4 / 2)) 1.22))
  <= 0.52832121477264857010.
Proof.
  apply exp_between with (lo := -0.63805081894076604806) (hi := -0.63805081894076604782).
  - pose proof pow_1_22_bounds. lra.
  - exp_lower.
  - exp_upper.
Qed.

Lemma ln_10_bounds : 2.30258509299404568398 <= ln 10 <= 2.30258509299404568405.
Proof.
  apply ln_between with (a := 10.0) (b := 10.0).
  - exp_upper.
  - lra.
  - exp_lower.
Qed.

Lemma PI4_range : 0 <= PI / 4 < PI.
Proof. pose proof PI_RGT_0. lra. Qed.

(** The docstring values of [phase_func]. *)
Lemma phase_func_doctests :
  exists phi1 phi2 : R,
    phase_func 1 (PI / 4) = Ok phi1 /\ Rabs (phi1 - 0.14790968630394927) < 1e-15 /\
    phase_func 2 (PI / 4) = Ok phi2 /\ Rabs (phi2 - 0.5283212147726485) < 1e-15.
Proof.
  eexists _, _.
  split; [apply (phase_func_1 _ PI4_range)|].
  split; [pose proof phi1_PI4_bounds; apply Rabs_def1; lra|].
  split; [apply (phase_func_2 _ PI4_range)|].
  pose proof phi2_PI4_bounds. apply Rabs_def1; lra.
Qed.

Lemma reduc_mag_PI4_slope_0_10 :
  exists r : R,
    reduc_mag 10.0 (PI / 4) (Some 0.10) = Ok r /\
    10 - 2.5 * -0.73060185743543100294 <= r <= 10 - 2.5 * -0.73060185743543100334.
Proof.
  pose proof phi1_PI4_bounds as H1. pose proof phi2_PI4_bounds as H2.
  set (phi1 := exp (- (3.33 * real_pow (tan (PI / 4 / 2)) 0.63))) in *.
  set (phi2 := exp (- (1.87 * real_pow (tan (PI / 4 / 2)) 1.22))) in *.
  eexists. split.
  - apply (reduc_mag_closed _ _ _ phi1 phi2);
      [apply (phase_func_1 _ PI4_range) | apply (phase_func_2 _ PI4_range) | lra].
  - assert (-0.73060185743543100334 <= log10 ((1 - 0.10) * phi1 + 0.10 * phi2)
            <= -0.73060185743543100294) as Hq; [|lra].
    apply log10_between with
      (a_lo := -1.68227294584458440395) (a_hi := -1.68227294584458440313)
      (c_lo := 2.30258509299404568398) (c_hi := 2.30258509299404568405);
      try lra; [|apply ln_10_bounds].
    apply ln_between with (a := 0.18595083915081920995) (b := 0.18595083915081921009).
    + exp_upper.
    + lra.
    + exp_lower.
Qed.

Lemma reduc_mag_PI4_slope_default :
  exists r : R,
    reduc_mag 10.0 (PI / 4) None = Ok r /\
    10 - 2.5 * -0.68830669954880644927 <= r <= 10 - 2.5 * -0.68830669954880644965.
Proof.
  pose proof phi1_PI4_bounds as H1. pose proof phi2_PI4_bounds as H2.
  set (phi1 := exp (- (3.33 * real_pow (tan (PI / 4 / 2)) 0.63))) in *.
  set (phi2 := exp (- (1.87 * real_pow (tan (PI / 4 / 2)) 1.22))) in *.
  rewrite reduc_mag_default.
  eexists. split.
  - apply (reduc_mag_closed _ _ _ phi1 phi2);
      [apply (phase_func_1 _ PI4_range) | apply (phase_func_2 _ PI4_range) | lra].
  - assert (-0.68830669954880644965 <= log10 ((1 - 0.15) * phi1 + 0.15 * phi2)
            <= -0.68830669954880644927) as Hq; [|lra].
    apply log10_between with
      (a_lo := -1.58488474578901316126) (a_hi := -1.58488474578901316051)
      (c_lo := 2.30258509299404568398) (c_hi := 2.30258509299404568405);
      try lra; [|apply ln_10_bounds].
    apply ln_between with (a := 0.20497141557425417439) (b := 0.20497141557425417453).
    + exp_upper.
    + lra.
    + exp_lower.
Qed.

(** C9: [reduc_mag (10.0, PI / 4, 0.10)] and [reduc_mag (10.0, PI / 4)], the
    latter with the default slope parameter, return values within [1e-15] of
    the docstring's 11.826504643588578 and 11.720766748872016. *)
Theorem reduc_mag_doctests :
  exists r1 r2 : R,
    reduc_mag 10.0 (PI / 4) (Some 0.10) = Ok r1 /\
    Rabs (r1 - 11.826504643588578) < 1e-15 /\
    reduc_mag 10.0 (PI / 4) None = Ok r2 /\
    Rabs (r2 - 11.720766748872016) < 1e-15.
Proof.
  destruct reduc_mag_PI4_slope_0_10 as (r1 & Hr1 & Hb1).
  destruct reduc_mag_PI4_slope_default as (r2 & Hr2 & Hb2).
  exists r1, r2.
  split; [exact Hr1|]. split; [apply Rabs_def1; lra|].
  split; [exact Hr2|]. apply Rabs_def1; lra.
Qed.

Lemma real_pow_eq_0 (x b : R) : real_pow x b = 0 <-> x = 0.
Proof.
  unfold real_pow. case_decide as H; [tauto|].
  split; [|tauto]. intros H0. pose proof (exp_pos (b * ln x)). unfold Rpower in H0. lra.
Qed.

Lemma real_pow_lt (x y b : R) :
  0 <= x < y -> 0 < b -> real_pow x b < real_pow y b.
Proof.
  intros [Hx Hxy] Hb. unfold real_pow.
  case_decide as Hx0; case_decide as Hy0; try lra.
  - apply exp_pos.
  - unfold Rpower. apply exp_increasing.
    apply Rmult_lt_compat_l; [exact Hb|]. apply ln_increasing; lra.
Qed.

Lemma tan_half_lt (t1 t2 : R) :
  0 <= t1 < t2 -> t2 < PI -> tan (t1 / 2) < tan (t2 / 2).
Proof. intros [H0 H1] H2. apply tan_increasing; lra. Qed.

Lemma tables (index : Z) :
  index = 1%Z \/ index = 2%Z ->
  exists a b : R,
    getitem a_factor index = Ok a /\ getitem b_factor index = Ok b /\
    0 < a /\ 0 < b.
Proof.
  intros [-> | ->].
  - exists 3.33, 0.63.
    split; [apply getitem_a_factor_1|]. split; [apply getitem_b_factor_1|]. lra.
  - exists 1.87, 1.22.
    split; [apply getitem_a_factor_2|]. split; [apply getitem_b_factor_2|]. lra.
Qed.

(** Where the real exponential is positive and below [1] off the origin,
    the float one rounds to [0.0] and to [1.0]: the bounds are stated as the
    floats keep them. *)
Lemma phase_func_unit_interval (index : Z) (theta : R) :
  index = 1%Z \/ index = 2%Z -> 0 <= theta < PI ->
  exists phi : R,
    phase_func index theta = Ok phi /\ 0 <= phi <= 1 /\ (theta = 0 -> phi = 1).
Proof.
  intros Hi Ht. destruct (tables index Hi) as (a & b & Ha & Hb & Ha0 & Hb0).
  eexists. split; [apply (phase_func_closed index a b theta Ha Hb Hb0 Ht)|].
  pose proof (real_pow_nonneg (tan (theta / 2)) b) as Hp.
  set (p := real_pow (tan (theta / 2)) b) in *.
  assert (exp (- (a * p)) <= 1) as Hle.
  { rewrite <- exp_0. destruct (Req_dec (a * p) 0) as [-> | Hne].
    - rewrite Ropp_0. apply Rle_refl.
    - left. apply exp_increasing. nra. }
  split; [split; [left; apply exp_pos | exact Hle]|].
  intros ->. unfold p. replace (0 / 2) with 0 by lra.
  rewrite tan_0, real_pow_0, Rmult_0_r, Ropp_0. apply exp_0.
Qed.

Lemma phase_func_le (index : Z) (theta1 theta2 : R) :
  index = 1%Z \/ index = 2%Z -> 0 <= theta1 < theta2 -> theta2 < PI ->
  exists phi1 phi2 : R,
    phase_func index theta1 = Ok phi1 /\ phase_func index theta2 = Ok phi2 /\
    phi2 <= phi1.
Proof.
  intros Hi H12 H2. destruct (tables index Hi) as (a & b & Ha & Hb & Ha0 & Hb0).
  eexists _, _.
  split; [apply (phase_func_closed index a b theta1 Ha Hb Hb0); lra|].
  split; [apply (phase_func_closed index a b theta2 Ha Hb Hb0); lra|].
  left. apply exp_increasing.
  assert (real_pow (tan (theta1 / 2)) b < real_pow (tan (theta2 / 2)) b) as Hp.
  { apply real_pow_lt; [|exact Hb0]. split.
    - apply tan_half_nonneg. lra.
    - apply tan_half_lt; assumption. }
  nra.
Qed.

(** ** More on [reduc_mag] *)

Lemma log10_nonpos (x : R) : 0 < x <= 1 -> log10 x <= 0.
Proof.
  intros [H0 [Hlt | ->]]; [|rewrite log10_1; apply Rle_refl].
  unfold log10.
  assert (ln x < 0) by (rewrite <- ln_1; apply ln_increasing; lra).
  assert (0 < ln 10) by (rewrite <- ln_1; apply ln_increasing; lra).
  assert (0 < / ln 10) by (apply Rinv_0_lt_compat; assumption).
  unfold Rdiv. nra.
Qed.

Lemma log10_increasing (x y : R) : 0 < x < y -> log10 x < log10 y.
Proof.
  intros [H0 Hlt]. unfold log10.
  assert (ln x < ln y) by (apply ln_increasing; lra).
  assert (0 < ln 10) by (rewrite <- ln_1; apply ln_increasing; lra).
  assert (0 < / ln 10) by (apply Rinv_0_lt_compat; assumption).
  unfold Rdiv. nra.
Qed.

Lemma log10_mult (x y : R) : 0 < x -> 0 < y -> log10 (x * y) = log10 x + log10 y.
Proof.
  intros Hx Hy. unfold log10. rewrite ln_mult by assumption.
  assert (0 < ln 10) by (rewrite <- ln_1; apply ln_increasing; lra).
  field. lra.
Qed.

(** The slope parameter in force. *)
Lemma reduc_mag_slope (abs_mag phase_angle : R) (slope_g : option R) :
  reduc_mag abs_mag phase_angle slope_g
  = reduc_mag abs_mag phase_angle (Some (default slope_g_default slope_g)).
Proof. destruct slope_g; reflexivity. Qed.

(** What a returned value of [reduc_mag] tells. *)
Lemma reduc_mag_Ok_inv (abs_mag theta g r : R) :
  reduc_mag abs_mag theta (Some g) = Ok r ->
  exists phi1 phi2 : R,
    phase_func 1 theta = Ok phi1 /\ phase_func 2 theta = Ok phi2 /\
    0 < (1 - g) * phi1 + g * phi2 /\
    r = abs_mag - 2.5 * log10 ((1 - g) * phi1 + g * phi2).
Proof.
  unfold reduc_mag. simpl default.
  destruct (phase_func 1 theta) as [phi1 | e]; [|discriminate].
  destruct (phase_func 2 theta) as [phi2 | e]; [|discriminate].
  rewrite !bind_Ok. replace (1.0 - g) with (1 - g) by lra.
  unfold math_log10. case_decide as Hpos; [|discriminate].
  rewrite bind_Ok. intros [= <-].
  exists phi1, phi2. auto.
Qed.

Lemma log10_le (x y : R) : 0 < x <= y -> log10 x <= log10 y.
Proof.
  intros [H0 [Hlt | ->]]; [|apply Rle_refl].
  left. apply log10_increasing. lra.
Qed.

Lemma reduc_mag_ge_abs_mag (abs_mag theta : R) (slope_g : option R) (red_mag : R) :
  0 <= theta < PI -> 0 <= default slope_g_default slope_g <= 1 ->
  reduc_mag abs_mag theta slope_g = Ok red_mag -> abs_mag <= red_mag.
Proof.
  intros Ht Hg. rewrite reduc_mag_slope.
  set (g := default slope_g_default slope_g) in *.
  intros Hr. apply reduc_mag_Ok_inv in Hr as (phi1 & phi2 & H1 & H2 & Hpos & ->).
  destruct (phase_func_unit_interval 1 theta (or_introl eq_refl) Ht)
    as (x1 & Hx1 & [Hp1 Hq1] & _).
  destruct (phase_func_unit_interval 2 theta (or_intror eq_refl) Ht)
    as (x2 & Hx2 & [Hp2 Hq2] & _).
  rewrite H1 in Hx1. injection Hx1 as <-.
  rewrite H2 in Hx2. injection Hx2 as <-.
  assert (0 < (1 - g) * phi1 + g * phi2 <= 1) as Hs by nra.
  pose proof (log10_nonpos _ Hs). lra.
Qed.

(** X4: for a slope parameter in [[0, 1]] (the default is), [reduc_mag] does
    not fall as the phase angle grows on [[0, PI)]: of two values it
    returns, the one at the larger phase angle is not the brighter. *)
Theorem reduc_mag_increasing (abs_mag theta1 theta2 : R) (slope_g : option R)
    (r1 r2 : R) :
  0 <= theta1 < theta2 -> theta2 < PI ->
  0 <= default slope_g_default slope_g <= 1 ->
  reduc_mag abs_mag theta1 slope_g = Ok r1 ->
  reduc_mag abs_mag theta2 slope_g = Ok r2 ->
  r1 <= r2.
Proof.
  intros H12 H2 Hg. rewrite !(reduc_mag_slope abs_mag _ slope_g).
  set (g := default slope_g_default slope_g) in *.
  intros Hr1 Hr2.
  apply reduc_mag_Ok_inv in Hr1 as (p1 & p2 & Hp1 & Hp2 & Hs & ->).
  apply reduc_mag_Ok_inv in Hr2 as (p1' & p2' & Hp1' & Hp2' & Hs' & ->).
  destruct (phase_func_le 1 theta1 theta2 (or_introl eq_refl) H12 H2)
    as (x1 & x1' & Hx1 & Hx1' & Hle1).
  destruct (phase_func_le 2 theta1 theta2 (or_intror eq_refl) H12 H2)
    as (x2 & x2' & Hx2 & Hx2' & Hle2).
  rewrite Hp1 in Hx1. injection Hx1 as <-.
  rewrite Hp1' in Hx1'. injection Hx1' as <-.
  rewrite Hp2 in Hx2. injection Hx2 as <-.
  rewrite Hp2' in Hx2'. injection Hx2' as <-.
  assert ((1 - g) * p1' + g * p2' <= (1 - g) * p1 + g * p2) as Hle.
  { assert (0 <= (1 - g) * (p1 - p1')) by (apply Rmult_le_pos; lra).
    assert (0 <= g * (p2 - p2')) by (apply Rmult_le_pos; lra).
    lra. }
  pose proof (log10_le _ _ (conj Hs' Hle)). lra.
Qed.

(** X5: on a phase angle in [[0, PI)], [reduc_mag] returns exactly when
    [(1 - g) * phase_func(1) + g * phase_func(2)] is positive; otherwise the
    logarithm raises [ValueError], which a slope parameter outside [[0, 1]]
    can bring about. *)
Theorem reduc_mag_returns_iff (abs_mag theta slope_g : R) :
  0 <= theta < PI ->
  exists phi1 phi2 : R,
    phase_func 1 theta = Ok phi1 /\ phase_func 2 theta = Ok phi2 /\
    (returns (reduc_mag abs_mag theta (Some slope_g))
     <-> 0 < (1 - slope_g) * phi1 + slope_g * phi2) /\
    ((1 - slope_g) * phi1 + slope_g * phi2 <= 0
     -> reduc_mag abs_mag theta (Some slope_g) = Raise ValueError).
Proof.
  intros Ht.
  pose proof (phase_func_1 theta Ht) as H1.
  pose proof (phase_func_2 theta Ht) as H2.
  eexists _, _. split; [exact H1|]. split; [exact H2|]. split.
  - split.
    + intros [r Hr].
      destruct (Rlt_le_dec 0 ((1 - slope_g)
          * exp (- (3.33 * real_pow (tan (theta / 2)) 0.63))
          + slope_g * exp (- (1.87 * real_pow (tan (theta / 2)) 1.22))))
        as [Hpos | Hneg]; [exact Hpos|].
      rewrite (reduc_mag_ValueError _ _ _ _ _ H1 H2 Hneg) in Hr. discriminate.
    + intros Hpos. eexists. apply (reduc_mag_closed _ _ _ _ _ H1 H2 Hpos).
  - apply (reduc_mag_ValueError _ _ _ _ _ H1 H2).
Qed.


(** ** More on [hg_app_mag] *)

Lemma dotp_comm (v w : list R) : dotp v w = dotp w v.
Proof.
  revert w. induction v as [|x v IH]; intros [|y w]; try reflexivity.
  rewrite !dotp_cons, IH. lra.
Qed.

(** X6: [hg_app_mag] does not tell its two vectors apart: swapping observer
    and illumination source gives the same outcome. *)
Theorem hg_app_mag_sym (abs_mag : R) (v1 v2 : list R) (slope_g : option R) :
  hg_app_mag abs_mag v1 v2 slope_g = hg_app_mag abs_mag v2 v1 slope_g.
Proof.
  unfold hg_app_mag, obj_phase_angle.
  rewrite (dotp_comm v1 v2), (Rmult_comm (np_linalg_norm v1)). reflexivity.
Qed.

Lemma sum_sq_scale (c : R) (v : list R) : sum_sq (np_scale c v) = c * c * sum_sq v.
Proof.
  induction v as [|x v IH]; [unfold sum_sq; simpl; lra|].
  unfold np_scale in *. simpl map. rewrite !sum_sq_cons, IH. lra.
Qed.

Lemma norm_scale (c : R) (v : list R) :
  0 <= c -> np_linalg_norm (np_scale c v) = c * np_linalg_norm v.
Proof.
  intros Hc. unfold np_linalg_norm. rewrite sum_sq_scale.
  rewrite sqrt_mult_alt by nra. rewrite sqrt_square by exact Hc. reflexivity.
Qed.

Lemma norm_scale_abs (c : R) (v : list R) :
  np_linalg_norm (np_scale c v) = Rabs c * np_linalg_norm v.
Proof.
  unfold np_linalg_norm. rewrite sum_sq_scale.
  rewrite sqrt_mult_alt by nra.
  replace (c * c) with (Rsqr c) by reflexivity. rewrite sqrt_Rsqr_abs. reflexivity.
Qed.

Lemma dotp_scale (c1 c2 : R) (v w : list R) :
  dotp (np_scale c1 v) (np_scale c2 w) = c1 * c2 * dotp v w.
Proof.
  revert w. induction v as [|x v IH]; intros [|y w];
    try (unfold dotp, sum_list; simpl; lra).
  unfold np_scale in *. simpl map. rewrite !dotp_cons, IH. lra.
Qed.

Lemma hg_app_mag_slope (abs_mag : R) (v1 v2 : list R) (slope_g : option R) :
  hg_app_mag abs_mag v1 v2 slope_g
  = hg_app_mag abs_mag v1 v2 (Some (default slope_g_default slope_g)).
Proof. destruct slope_g; reflexivity. Qed.

Lemma norm_nonzero (v : list R) : np_linalg_norm v <> 0 -> nonzero v.
Proof.
  induction v as [|x v IH]; intros H.
  - exfalso. apply H. unfold np_linalg_norm, sum_sq. simpl. apply sqrt_0.
  - destruct (Req_dec x 0) as [-> | Hx]; [|left; exact Hx].
    right. apply IH. intros Hv. apply H.
    unfold np_linalg_norm in *. rewrite sum_sq_cons.
    replace (0 * 0 + sum_sq v) with (sum_sq v) by lra. exact Hv.
Qed.

Lemma norm_zero_or_nonzero (v : list R) : np_linalg_norm v = 0 \/ nonzero v.
Proof.
  destruct (Req_dec (np_linalg_norm v) 0) as [H | H]; [left; exact H | right].
  apply norm_nonzero, H.
Qed.

Lemma hg_app_mag_zero_norm (abs_mag : R) (v1 v2 : list R) (slope_g : option R) :
  np_linalg_norm v1 = 0 \/ np_linalg_norm v2 = 0 ->
  hg_app_mag abs_mag v1 v2 slope_g = Raise ValueError.
Proof.
  intros H. unfold hg_app_mag.
  rewrite obj_phase_angle_zero_length by exact H.
  rewrite bind_Ok. unfold reduc_mag_float64. rewrite bind_Ok.
  rewrite math_log10_nonpos; [reflexivity|].
  destruct H as [-> | ->]; lra.
Qed.

Lemma phase_func_no_FloatingPointError (index : Z) (theta : R) :
  phase_func index theta <> Raise FloatingPointError.
Proof.
  unfold phase_func, getitem, math_tan.
  destruct (a_factor !! index); [|discriminate]. rewrite bind_Ok.
  case_decide; [discriminate|]. rewrite bind_Ok.
  destruct (b_factor !! index); [|discriminate]. rewrite bind_Ok.
  unfold py_pow.
  repeat case_decide; try discriminate; rewrite ?bind_Ok; simpl; try discriminate.
  destruct (is_integral _); simpl; discriminate.
Qed.

(** The branch of [hg_app_mag] for a sum that is no number is never taken. *)
Lemma hg_app_mag_no_FloatingPointError (abs_mag : R) (v1 v2 : list R)
    (slope_g : option R) :
  hg_app_mag abs_mag v1 v2 slope_g <> Raise FloatingPointError.
Proof.
  rewrite hg_app_mag_slope.
  destruct (norm_zero_or_nonzero v1) as [Hz1 | Hn1].
  { rewrite hg_app_mag_zero_norm by (left; exact Hz1). discriminate. }
  destruct (norm_zero_or_nonzero v2) as [Hz2 | Hn2].
  { rewrite hg_app_mag_zero_norm by (right; exact Hz2). discriminate. }
  rewrite hg_app_mag_nonzero by assumption.
  set (theta := acos _).
  destruct (reduc_mag abs_mag theta _) as [r | e] eqn:Hr; [discriminate|].
  rewrite bind_Raise. intros [= ->].
  unfold reduc_mag in Hr.
  destruct (phase_func 1 theta) as [p1 | e1] eqn:H1.
  - destruct (phase_func 2 theta) as [p2 | e2] eqn:H2.
    + rewrite !bind_Ok in Hr. unfold math_log10 in Hr.
      case_decide; discriminate.
    + rewrite bind_Ok, bind_Raise in Hr. injection Hr as ->.
      revert H2. apply phase_func_no_FloatingPointError.
  - rewrite bind_Raise in Hr. injection Hr as ->.
    revert H1. apply phase_func_no_FloatingPointError.
Qed.

Lemma nonzero_scale (c : R) (v : list R) : c <> 0 -> nonzero v -> nonzero (np_scale c v).
Proof.
  intros Hc Hv. unfold nonzero, np_scale.
  induction Hv as [x v Hx | x v _ IH]; simpl.
  - left. nra.
  - right. exact IH.
Qed.

Lemma hg_app_mag_scaled (abs_mag c1 c2 : R) (v1 v2 : list R)
    (slope_g : option R) :
  0 < c1 -> 0 < c2 ->
  hg_app_mag abs_mag (np_scale c1 v1) (np_scale c2 v2) slope_g
  = (app_mag ← hg_app_mag abs_mag v1 v2 slope_g;
     Ok (app_mag + 5 * log10 (c1 * c2))).
Proof.
  intros Hc1 Hc2.
  rewrite (hg_app_mag_slope _ (np_scale c1 v1)), (hg_app_mag_slope _ v1).
  set (g := default slope_g_default slope_g).
  destruct (norm_zero_or_nonzero v1) as [Hz1 | Hn1].
  { rewrite (hg_app_mag_zero_norm _ v1) by (left; exact Hz1).
    apply hg_app_mag_zero_norm. left. rewrite norm_scale, Hz1 by lra. lra. }
  destruct (norm_zero_or_nonzero v2) as [Hz2 | Hn2].
  { rewrite (hg_app_mag_zero_norm _ v1) by (right; exact Hz2).
    apply hg_app_mag_zero_norm. right. rewrite norm_scale, Hz2 by lra. lra. }
  pose proof (norm_pos v1 Hn1) as Hp1. pose proof (norm_pos v2 Hn2) as Hp2.
  rewrite !hg_app_mag_nonzero by (try apply nonzero_scale; auto; lra).
  rewrite !norm_scale, dotp_scale by lra.
  replace (c1 * c2 * dotp v1 v2 / (c1 * np_linalg_norm v1 * (c2 * np_linalg_norm v2)))
    with (dotp v1 v2 / (np_linalg_norm v1 * np_linalg_norm v2))
    by (field; lra).
  destruct (reduc_mag _ _ _) as [r | e]; [|reflexivity].
  rewrite !bind_Ok. f_equal.
  replace (c1 * np_linalg_norm v1 * (c2 * np_linalg_norm v2))
    with (c1 * c2 * (np_linalg_norm v1 * np_linalg_norm v2)) by ring.
  rewrite log10_mult by nra. lra.
Qed.

Lemma obj_phase_angle_scaled (c1 c2 : R) (v1 v2 : list R) :
  0 < c1 -> 0 < c2 ->
  obj_phase_angle (np_scale c1 v1) (np_scale c2 v2) = obj_phase_angle v1 v2.
Proof.
  intros Hc1 Hc2.
  destruct (norm_zero_or_nonzero v1) as [Hz1 | Hn1].
  { rewrite !obj_phase_angle_zero_length; [reflexivity | left; exact Hz1 |].
    left. rewrite norm_scale, Hz1 by lra. lra. }
  destruct (norm_zero_or_nonzero v2) as [Hz2 | Hn2].
  { rewrite !obj_phase_angle_zero_length; [reflexivity | right; exact Hz2 |].
    right. rewrite norm_scale, Hz2 by lra. lra. }
  pose proof (norm_pos v1 Hn1) as Hp1. pose proof (norm_pos v2 Hn2) as Hp2.
  rewrite !obj_phase_angle_nonzero by (try apply nonzero_scale; auto; lra).
  rewrite !norm_scale, dotp_scale by lra.
  do 3 f_equal. field. lra.
Qed.

Lemma acos_m1 : acos (-1) = PI.
Proof. replace (-1) with (- (1)) by lra. rewrite acos_opp, acos_1. lra. Qed.

Lemma angle_range (v1 v2 : list R) :
  nonzero v1 -> nonzero v2 ->
  dotp v1 v2 <> - (np_linalg_norm v1 * np_linalg_norm v2) ->
  0 <= acos (dotp v1 v2 / (np_linalg_norm v1 * np_linalg_norm v2)) < PI.
Proof.
  intros H1 H2 Hanti.
  pose proof (norm_pos v1 H1). pose proof (norm_pos v2 H2).
  pose proof (cos_angle_bounds v1 v2 H1 H2) as [Hlo Hhi].
  set (n := np_linalg_norm v1 * np_linalg_norm v2) in *.
  assert (0 < n) as Hn by (unfold n; nra).
  assert (dotp v1 v2 / n <> -1) as Hne.
  { intros Heq. apply Hanti.
    replace (dotp v1 v2) with (dotp v1 v2 / n * n) by (field; lra).
    rewrite Heq. lra. }
  destruct Hhi as [Hlt | Heq].
  - pose proof (acos_bound_lt (dotp v1 v2 / n)). lra.
  - rewrite Heq, acos_1. pose proof PI_RGT_0. lra.
Qed.

Lemma hg_app_mag_Ok_inv (abs_mag : R) (v1 v2 : list R) (slope_g : option R)
    (app_mag : R) :
  hg_app_mag abs_mag v1 v2 slope_g = Ok app_mag ->
  nonzero v1 /\ nonzero v2 /\
  exists red_mag : R,
    reduc_mag abs_mag
      (acos (dotp v1 v2 / (np_linalg_norm v1 * np_linalg_norm v2)))
      (Some (default slope_g_default slope_g)) = Ok red_mag /\
    app_mag = red_mag + 5 * log10 (np_linalg_norm v1 * np_linalg_norm v2).
Proof.
  intros H.
  destruct (norm_zero_or_nonzero v1) as [Hz1 | Hn1].
  { rewrite hg_app_mag_zero_norm in H by (left; exact Hz1). discriminate. }
  destruct (norm_zero_or_nonzero v2) as [Hz2 | Hn2].
  { rewrite hg_app_mag_zero_norm in H by (right; exact Hz2). discriminate. }
  split; [exact Hn1|]. split; [exact Hn2|].
  rewrite hg_app_mag_slope, hg_app_mag_nonzero in H by assumption.
  destruct (reduc_mag _ _ _) as [r | e]; [|discriminate].
  rewrite bind_Ok in H. injection H as <-.
  exists r. auto.
Qed.

Lemma reduc_mag_at_PI (abs_mag : R) (slope_g : option R) :
  reduc_mag abs_mag PI slope_g = Raise ValueError.
Proof.
  unfold reduc_mag.
  rewrite (phase_func_pole 1 3.33 PI getitem_a_factor_1 cos_PI2). reflexivity.
Qed.

Lemma hg_app_mag_opposed_aux (abs_mag : R) (v1 v2 : list R) (slope_g : option R) :
  nonzero v1 -> nonzero v2 ->
  dotp v1 v2 = - (np_linalg_norm v1 * np_linalg_norm v2) ->
  hg_app_mag abs_mag v1 v2 slope_g = Raise ValueError.
Proof.
  intros H1 H2 Hanti.
  pose proof (norm_pos v1 H1). pose proof (norm_pos v2 H2).
  rewrite hg_app_mag_slope, hg_app_mag_nonzero by assumption.
  replace (dotp v1 v2 / (np_linalg_norm v1 * np_linalg_norm v2)) with (-1)
    by (rewrite Hanti; field; nra).
  rewrite acos_m1, reduc_mag_at_PI. reflexivity.
Qed.

(** X9: for nonzero opposed vectors ([dot (v1, v2) = - |v1| * |v2|]) the phase
    angle is [PI], its half is where the tangent has no value, and
    [hg_app_mag] raises [ValueError]. *)
Theorem hg_app_mag_opposed (abs_mag : R) (v1 v2 : list R) (slope_g : option R) :
  nonzero v1 -> nonzero v2 ->
  dotp v1 v2 = - (np_linalg_norm v1 * np_linalg_norm v2) ->
  hg_app_mag abs_mag v1 v2 slope_g = Raise ValueError.
Proof.
  intros H1 H2 Hanti.
  pose proof (norm_pos v1 H1). pose proof (norm_pos v2 H2).
  rewrite hg_app_mag_slope, hg_app_mag_nonzero by assumption.
  replace (dotp v1 v2 / (np_linalg_norm v1 * np_linalg_norm v2)) with (-1)
    by (rewrite Hanti; field; nra).
  rewrite acos_m1, reduc_mag_at_PI. reflexivity.
Qed.

(** X8: a magnitude that [hg_app_mag] returns for a slope parameter in
    [[0, 1]] comes from two nonzero vectors that are not opposed, and it is
    at least [H + 5 * log10 (|v1| * |v2|)]. *)
Theorem hg_app_mag_returned (abs_mag : R) (v1 v2 : list R) (slope_g : option R)
    (app_mag : R) :
  0 <= default slope_g_default slope_g <= 1 ->
  hg_app_mag abs_mag v1 v2 slope_g = Ok app_mag ->
  nonzero v1 /\ nonzero v2 /\
  dotp v1 v2 <> - (np_linalg_norm v1 * np_linalg_norm v2) /\
  abs_mag + 5 * log10 (np_linalg_norm v1 * np_linalg_norm v2) <= app_mag.
Proof.
  intros Hg H.
  assert (dotp v1 v2 <> - (np_linalg_norm v1 * np_linalg_norm v2)) as Hanti.
  { intros Hanti.
    destruct (hg_app_mag_Ok_inv _ _ _ _ _ H) as (H1 & H2 & _).
    rewrite (hg_app_mag_opposed_aux abs_mag v1 v2 slope_g H1 H2 Hanti) in H.
    discriminate. }
  destruct (hg_app_mag_Ok_inv _ _ _ _ _ H) as (H1 & H2 & r & Hr & ->).
  split; [exact H1|]. split; [exact H2|]. split; [exact Hanti|].
  pose proof (angle_range v1 v2 H1 H2 Hanti) as Ht.
  pose proof (reduc_mag_ge_abs_mag abs_mag _ (Some (default slope_g_default slope_g))
                r Ht Hg Hr).
  lra.
Qed.

(** Both vectors divided by a positive unit. *)
Lemma hg_app_mag_unit (abs_mag au : R) (v1 v2 : list R) (slope_g : option R) :
  0 < au ->
  hg_app_mag abs_mag (map (fun x => x / au) v1) (map (fun x => x / au) v2) slope_g
  = (app_mag ← hg_app_mag abs_mag v1 v2 slope_g;
     Ok (app_mag - 10 * log10 au)).
Proof.
  intros Hau.
  assert (0 < / au) as Hinv by (apply Rinv_0_lt_compat; exact Hau).
  assert (forall v, map (fun x => x / au) v = np_scale (/ au) v) as Hmap.
  { intros v. unfold np_scale. apply map_ext. intros x. unfold Rdiv. ring. }
  rewrite !Hmap, hg_app_mag_scaled by exact Hinv.
  destruct (hg_app_mag _ _ _ _) as [m | e]; [|reflexivity].
  rewrite !bind_Ok. f_equal.
  rewrite log10_mult by assumption.
  assert (log10 (/ au) = - log10 au) as ->.
  { unfold log10. rewrite ln_Rinv by exact Hau.
    assert (0 < ln 10) by (rewrite <- ln_1; apply ln_increasing; lra).
    field. lra. }
  lra.
Qed.

(** ** From heliocentric positions to the apparent magnitude *)

Lemma one_au_pos : 0 < one_au.
Proof. unfold one_au. lra. Qed.

Lemma np_divide_scalar_scale (v : list R) (c : R) :
  c <> 0 -> np_divide_scalar v c = Ok (np_scale (/ c) v).
Proof.
  intros Hc. unfold np_divide_scalar, np_scale.
  case_decide as H; [tauto|]. f_equal.
  apply map_ext. intros x. unfold Rdiv. ring.
Qed.

Lemma np_add_same_length (u v : list R) :
  length u = length v -> np_add u v = Ok (zip_with Rplus u v).
Proof. intros H. unfold np_add, np_broadcast2. case_decide; [reflexivity | tauto]. Qed.

Lemma eros433_app_mag_km (abs_mag slope_g : R) (sun_obj sun_earth to_earth : list R) :
  np_add (np_scale (-1.0) sun_obj) sun_earth = Ok to_earth ->
  eros433_app_mag abs_mag slope_g sun_obj sun_earth
  = (app_mag ← hg_app_mag abs_mag to_earth (np_scale (-1.0) sun_obj)
                 (Some slope_g);
     Ok (app_mag - 10 * log10 one_au)).
Proof.
  intros Hadd. unfold eros433_app_mag. rewrite Hadd, bind_Ok.
  pose proof one_au_pos as Hau.
  rewrite !np_divide_scalar_scale, !bind_Ok by lra.
  rewrite hg_app_mag_scaled by (apply Rinv_0_lt_compat; exact Hau).
  destruct (hg_app_mag _ _ _ _) as [m | e]; [|reflexivity].
  rewrite !bind_Ok. f_equal.
  assert (0 < / one_au) by (apply Rinv_0_lt_compat; exact Hau).
  rewrite log10_mult by assumption.
  assert (log10 (/ one_au) = - log10 one_au) as ->.
  { unfold log10. rewrite ln_Rinv by exact Hau.
    assert (0 < ln 10) by (rewrite <- ln_1; apply ln_increasing; lra).
    field. lra. }
  lra.
Qed.

(** X11: an object at the Sun's place ([sun_obj] of zero length) or at the
    Earth's ([sun_obj = sun_earth]) has a zero vector among the two handed to
    [hg_app_mag]: the cells return no magnitude, the logarithm of the zero
    product of the lengths raising [ValueError]. *)
Theorem eros433_app_mag_coincident (abs_mag slope_g : R)
    (sun_obj sun_earth : list R) :
  length sun_obj = length sun_earth ->
  np_linalg_norm sun_obj = 0 \/ sun_obj = sun_earth ->
  eros433_app_mag abs_mag slope_g sun_obj sun_earth = Raise ValueError.
Proof.
  intros Hlen Hco.
  assert (length (np_scale (-1.0) sun_obj) = length sun_earth) as Hlen'
    by (unfold np_scale; rewrite length_map; exact Hlen).
  rewrite (eros433_app_mag_km _ _ _ _ _ (np_add_same_length _ _ Hlen')).
  rewrite hg_app_mag_zero_norm; [reflexivity|].
  destruct Hco as [Hz | <-].
  - right. rewrite norm_scale_abs, Hz. lra.
  - left. unfold np_linalg_norm. rewrite sum_sq_all_zero; [apply sqrt_0|].
    clear. induction sun_obj as [|x v IH]; simpl; constructor; [lra | exact IH].
Qed.

(** ** More on [neo_class] *)

Lemma neo_class_cases (a q Q : R) :
  (neo_class a q Q = "Amor"%string /\ a > 1 /\ 1.017 < q < 1.3) \/
  (neo_class a q Q = "Apollo"%string /\ a > 1 /\ q < 1.017) \/
  (neo_class a q Q = "Aten"%string /\ a < 1 /\ Q > 0.983) \/
  (neo_class a q Q = "Atira"%string /\ a < 1 /\ Q < 0.983) \/
  (neo_class a q Q = "Other"%string /\
   ~ (a > 1 /\ q < 1.3 /\ q <> 1.017) /\ ~ (a < 1 /\ Q <> 0.983)).
Proof.
  unfold neo_class, py_gt, py_lt.
  repeat case_bool_decide; simpl;
    try (left; split; [reflexivity | lra]);
    try (right; left; split; [reflexivity | lra]);
    try (right; right; left; split; [reflexivity | lra]);
    try (right; right; right; left; split; [reflexivity | lra]);
    right; right; right; right; (split; [reflexivity | split; lra]).
Qed.

(** X13: each class is returned on its condition only: [neo_class] says Amor
    exactly when [a > 1] and [1.017 < q < 1.3], Apollo exactly when [a > 1]
    and [q < 1.017], Aten exactly when [a < 1] and [Q > 0.983], Atira exactly
    when [a < 1] and [Q < 0.983], and Other exactly in the remaining cases. *)
Theorem neo_class_inversion (a q Q : R) :
  (neo_class a q Q = "Amor"%string <-> a > 1 /\ 1.017 < q < 1.3) /\
  (neo_class a q Q = "Apollo"%string <-> a > 1 /\ q < 1.017) /\
  (neo_class a q Q = "Aten"%string <-> a < 1 /\ Q > 0.983) /\
  (neo_class a q Q = "Atira"%string <-> a < 1 /\ Q < 0.983) /\
  (neo_class a q Q = "Other"%string
   <-> ~ (a > 1 /\ q < 1.3 /\ q <> 1.017) /\ ~ (a < 1 /\ Q <> 0.983)).
Proof.
  destruct (neo_class_cases a q Q)
    as [(-> & H) | [(-> & H) | [(-> & H) | [(-> & H) | (-> & H)]]]];
    repeat split; intros; try discriminate; try lra; try tauto.
Qed.

(** X14: with the perihelion [(1 - e) * a] and aphelion [(1 + e) * a] the
    download notebook derives for an ellipse ([a > 0], [0 <= e < 1]),
    [0 < q <= a <= Q] and [q + Q = 2 * a]; a semi-major axis in [(1, 1.017)]
    is then always an Apollo and one in [(0.983, 1)] always an Aten. *)
Theorem neo_class_by_axis (a e : R) :
  0 < a -> 0 <= e < 1 ->
  0 < perihel_au a e <= a /\ a <= aphel_au a e /\
  perihel_au a e + aphel_au a e = 2 * a /\
  (1 < a < 1.017 ->
   neo_class a (perihel_au a e) (aphel_au a e) = "Apollo"%string) /\
  (0.983 < a < 1 ->
   neo_class a (perihel_au a e) (aphel_au a e) = "Aten"%string).
Proof.
  intros Ha He. unfold perihel_au, aphel_au.
  assert (0 < (1.0 - e) * a <= a) as Hq by nra.
  assert (a <= (1.0 + e) * a) as HQ by nra.
  split; [exact Hq|]. split; [exact HQ|]. split; [lra|]. split.
  - intros H. apply neo_class_Apollo; lra.
  - intros H. apply neo_class_Aten; lra.
Qed.

(** ** [neo_class] on fetched values *)

Lemma neo_class_dyn_floats (a q Q : R) :
  neo_class_dyn (Some a) (Some q) (Some Q) = Ok (neo_class a q Q).
Proof.
  unfold neo_class_dyn, neo_class, py_gt_dyn, py_lt_dyn, py_gt, py_lt.
  repeat case_bool_decide; cbn; reflexivity.
Qed.

Lemma neo_class_dyn_no_perihelion (a Q : option R) :
  neo_class_dyn a None Q = Raise TypeError.
Proof. destruct a; reflexivity. Qed.

Lemma neo_class_dyn_no_axis (q Q : option R) :
  neo_class_dyn None q Q = Raise TypeError.
Proof. reflexivity. Qed.

Lemma neo_class_dyn_no_aphelion_aux (a q : R) :
  (a > 1 -> q < 1.3 -> q <> 1.017 ->
   forall Q : R, neo_class_dyn (Some a) (Some q) None = Ok (neo_class a q Q)) /\
  (~ (a > 1 /\ q < 1.3 /\ q <> 1.017) ->
   neo_class_dyn (Some a) (Some q) None = Raise TypeError).
Proof.
  unfold neo_class_dyn, neo_class, py_gt_dyn, py_lt_dyn, py_gt, py_lt. simpl.
  rewrite ?bind_Ok.
  split.
  - intros Ha Hq Hq' Q. repeat case_bool_decide; simpl; try reflexivity; lra.
  - intros H. repeat case_bool_decide; simpl; try reflexivity; exfalso; lra.
Qed.

(** ** The table [main] *)

Section FoldAlter.

Context {V P : Type} (upd : P -> V -> V).

Let step (t : gmap string V) (p : string * P) : gmap string V :=
  alter (upd p.2) p.1 t.

Lemma foldl_alter_notin (l : list (string * P)) (t : gmap string V) (n : string) :
  n ∉ l.*1 -> foldl step t l !! n = t !! n.
Proof.
  revert t. induction l as [|[k p] l IH]; intros t Hn; [reflexivity|].
  simpl in *. apply not_elem_of_cons in Hn as [Hk Hl].
  rewrite IH by exact Hl. unfold step. simpl.
  apply lookup_alter_ne. congruence.
Qed.

Lemma foldl_alter_in (l : list (string * P)) (t : gmap string V)
    (n : string) (p : P) :
  NoDup l.*1 -> (n, p) ∈ l -> foldl step t l !! n = upd p <$> t !! n.
Proof.
  revert t. induction l as [|[k p'] l IH]; intros t Hnd Hin.
  - inversion Hin.
  - simpl in *. apply NoDup_cons in Hnd as [Hk Hnd].
    apply elem_of_cons in Hin as [Heq | Hin].
    + injection Heq as <- <-.
      rewrite foldl_alter_notin by exact Hk.
      unfold step. simpl. apply lookup_alter_eq.
    + rewrite (IH _ Hnd Hin). unfold step. simpl.
      rewrite lookup_alter_ne; [reflexivity|].
      intros <-. apply Hk. apply list_elem_of_fmap. exists (k, p). auto.
Qed.

(** Updating every row by a parameter computed from the row itself. *)
Lemma foldl_alter_rows (g : V -> P) (rows : list (string * V))
    (t : gmap string V) :
  rows ≡ₚ map_to_list t ->
  foldl step t ((fun row => (row.1, g row.2)) <$> rows)
  = (fun r => upd (g r) r) <$> t.
Proof.
  intros Hperm. apply map_eq. intros n. rewrite lookup_fmap.
  assert (((fun row : string * V => (row.1, g row.2)) <$> rows).*1 = rows.*1)
    as Hkeys.
  { rewrite <- list_fmap_compose. reflexivity. }
  assert (NoDup rows.*1) as Hnd.
  { rewrite Hperm. apply NoDup_fst_map_to_list. }
  destruct (t !! n) as [r|] eqn:Hr.
  - rewrite (foldl_alter_in _ _ _ (g r)).
    + rewrite Hr. reflexivity.
    + rewrite Hkeys. exact Hnd.
    + apply list_elem_of_fmap. exists (n, r). split; [reflexivity|].
      rewrite Hperm. apply elem_of_map_to_list. exact Hr.
  - rewrite foldl_alter_notin; [exact Hr|].
    rewrite Hkeys. intros Hin.
    apply list_elem_of_fmap in Hin as ([k r] & -> & Hin).
    rewrite Hperm in Hin. apply elem_of_map_to_list in Hin.
    simpl in Hr. congruence.
Qed.

End FoldAlter.

(** *** The insert *)

Lemma insert_cell_cons (t : gmap string main_row) (d : string * elements)
    (l : list (string * elements)) :
  insert_cell t (d :: l) = insert_cell (insert_or_ignore t d) l.
Proof. reflexivity. Qed.

Lemma insert_or_ignore_old (t : gmap string main_row) (d : string * elements)
    (n : string) (r : main_row) :
  t !! n = Some r -> insert_or_ignore t d !! n = Some r.
Proof.
  intros H. unfold insert_or_ignore.
  destruct (t !! d.1) eqn:E; [exact H|].
  rewrite lookup_insert_ne; [exact H | congruence].
Qed.

Lemma insert_cell_old (l : list (string * elements)) (t : gmap string main_row)
    (n : string) (r : main_row) :
  t !! n = Some r -> insert_cell t l !! n = Some r.
Proof.
  revert t. induction l as [|d l IH]; intros t H; [exact H|].
  rewrite insert_cell_cons. apply IH, insert_or_ignore_old, H.
Qed.

Lemma insert_cell_absent (l : list (string * elements))
    (t : gmap string main_row) (n : string) :
  t !! n = None -> n ∉ l.*1 -> insert_cell t l !! n = None.
Proof.
  revert t. induction l as [|d l IH]; intros t H Hn; [exact H|].
  simpl in Hn. apply not_elem_of_cons in Hn as [Hd Hl].
  rewrite insert_cell_cons. apply IH; [|exact Hl].
  unfold insert_or_ignore. destruct (t !! d.1); [exact H|].
  rewrite lookup_insert_ne; [exact H | congruence].
Qed.

Lemma insert_cell_first (l1 l2 : list (string * elements))
    (t : gmap string main_row) (n : string) (el : elements) :
  t !! n = None -> n ∉ l1.*1 ->
  insert_cell t (l1 ++ (n, el) :: l2) !! n = Some (MainRow el None None None).
Proof.
  intros H Hn. unfold insert_cell. rewrite foldl_app. simpl.
  apply insert_cell_old.
  pose proof (insert_cell_absent l1 t n H Hn) as Habs. unfold insert_cell in Habs.
  set (t1 := foldl insert_or_ignore t l1) in *.
  unfold insert_or_ignore. simpl. rewrite Habs. apply lookup_insert_eq.
Qed.

Lemma insert_cell_present (l : list (string * elements))
    (t : gmap string main_row) :
  (forall n, n ∈ l.*1 -> is_Some (t !! n)) -> insert_cell t l = t.
Proof.
  induction l as [|d l IH]; intros H; [reflexivity|].
  rewrite insert_cell_cons.
  assert (insert_or_ignore t d = t) as ->.
  { unfold insert_or_ignore. destruct (H d.1) as [r ->]; [|reflexivity].
    simpl. left. }
  apply IH. intros n Hn. apply H. simpl. right. exact Hn.
Qed.

Lemma insert_cell_names (l : list (string * elements))
    (t : gmap string main_row) (n : string) :
  n ∈ l.*1 -> is_Some (insert_cell t l !! n).
Proof.
  revert t. induction l as [|d l IH]; intros t Hn; [inversion Hn|].
  rewrite insert_cell_cons. simpl in Hn.
  apply elem_of_cons in Hn as [-> | Hn]; [|apply IH, Hn].
  assert (is_Some (insert_or_ignore t d !! d.1)) as [r Hr].
  { unfold insert_or_ignore. destruct (t !! d.1) eqn:E.
    - rewrite E. eauto.
    - rewrite lookup_insert_eq. eauto. }
  rewrite (insert_cell_old _ _ _ _ Hr). eauto.
Qed.

(** X17: running the insert a second time with the same records changes
    nothing. *)
Theorem insert_cell_twice (l : list (string * elements))
    (t : gmap string main_row) :
  insert_cell (insert_cell t l) l = insert_cell t l.
Proof. apply insert_cell_present. intros n. apply insert_cell_names. Qed.

(** *** The derived parameters *)

Lemma deriv_cell_on_fmap (rows : list (string * main_row))
    (t : gmap string main_row) :
  rows ≡ₚ fetchall t -> deriv_cell_on rows t = with_deriv <$> t.
Proof.
  intros Hperm. unfold deriv_cell_on, deriv_param_dict.
  apply (foldl_alter_rows
           (fun (p : R * R) r => MainRow (orbit r) (Some p.1) (Some p.2) (NEOClass r))
           (fun r => (aphel_au (SemMajAxis_AU (orbit r)) (Ecc_ (orbit r)),
                      perihel_au (SemMajAxis_AU (orbit r)) (Ecc_ (orbit r))))
           rows t Hperm).
Qed.

Lemma deriv_cell_fmap (t : gmap string main_row) :
  deriv_cell t = with_deriv <$> t.
Proof. apply deriv_cell_on_fmap. reflexivity. Qed.

(** *** The class cell *)

Lemma mapM_Ok {A B} (f : A -> result B) (g : A -> B) (l : list A) :
  (forall x, x ∈ l -> f x = Ok (g x)) -> mapM f l = Ok (g <$> l).
Proof.
  induction l as [|x l IH]; intros H; [reflexivity|].
  simpl. rewrite (H x) by left. rewrite bind_Ok, IH; [reflexivity|].
  intros y Hy. apply H. right. exact Hy.
Qed.

Lemma mapM_Raise {A B} (f : A -> result B) (e : exn) (l : list A) (x : A) :
  x ∈ l -> f x = Raise e -> (forall y e', f y = Raise e' -> e' = e) ->
  mapM f l = Raise e.
Proof.
  intros Hx Hfx Honly. induction l as [|y l IH]; [inversion Hx|].
  simpl. destruct (f y) as [b | e'] eqn:Ey.
  - rewrite bind_Ok. apply elem_of_cons in Hx as [-> | Hx]; [congruence|].
    rewrite (IH Hx). reflexivity.
  - rewrite (Honly _ _ Ey). reflexivity.
Qed.

Lemma neo_class_dyn_raises (a q Q : option R) (e : exn) :
  neo_class_dyn a q Q = Raise e -> e = TypeError.
Proof.
  destruct a as [a|]; [|cbn; congruence].
  destruct q as [q|]; [|cbn; congruence].
  destruct Q as [Q|]; [rewrite neo_class_dyn_floats; discriminate|].
  assert ((a > 1 /\ q < 1.3 /\ q <> 1.017)
          \/ ~ (a > 1 /\ q < 1.3 /\ q <> 1.017)) as [(H1 & H2 & H3) | H].
  { destruct (Rlt_le_dec 1 a); [|right; lra].
    destruct (Rlt_le_dec q 1.3); [|right; lra].
    destruct (Req_dec q 1.017); [right; lra | left; lra]. }
  - rewrite (proj1 (neo_class_dyn_no_aphelion_aux a q) H1 H2 H3 0). discriminate.
  - rewrite (proj2 (neo_class_dyn_no_aphelion_aux a q) H). congruence.
Qed.

Lemma class_cell_on_filled (rows : list (string * main_row))
    (t : gmap string main_row) :
  rows ≡ₚ fetchall t ->
  (forall n r, t !! n = Some r -> is_Some (Perihel_AU r) /\ is_Some (Aphel_AU r)) ->
  exists t' : gmap string main_row,
    class_cell_on rows t = Ok t' /\
    (forall n, t !! n = None -> t' !! n = None) /\
    (forall n r q Q,
       t !! n = Some r -> Perihel_AU r = Some q -> Aphel_AU r = Some Q ->
       t' !! n = Some (MainRow (orbit r) (Some Q) (Some q)
                         (Some (neo_class (SemMajAxis_AU (orbit r)) q Q)))).
Proof.
  intros Hperm Hfilled.
  set (cls := fun r : main_row =>
         match Perihel_AU r, Aphel_AU r with
         | Some q, Some Q => neo_class (SemMajAxis_AU (orbit r)) q Q
         | _, _ => ""%string
         end).
  set (upd := fun (c : string) (r : main_row) =>
         MainRow (orbit r) (Aphel_AU r) (Perihel_AU r) (Some c)).
  assert (neo_class_param_dict rows
          = Ok ((fun row : string * main_row => (row.1, cls row.2)) <$> rows))
    as Hparams.
  { apply mapM_Ok. intros [n r] Hin. simpl.
    rewrite Hperm in Hin. apply elem_of_map_to_list in Hin.
    destruct (Hfilled n r Hin) as [[q Hq] [Q HQ]].
    unfold cls. rewrite Hq, HQ, neo_class_dyn_floats. reflexivity. }
  exists ((fun r => upd (cls r) r) <$> t).
  split; [|split].
  - unfold class_cell_on. rewrite Hparams, bind_Ok. f_equal.
    apply (foldl_alter_rows upd cls rows t Hperm).
  - intros n Hn. rewrite lookup_fmap, Hn. reflexivity.
  - intros n r q Q Hr Hq HQ. rewrite lookup_fmap, Hr. simpl.
    unfold upd, cls. rewrite Hq, HQ. reflexivity.
Qed.

(** X20: when some row has no perihelion (NULL), the class cell raises
    [TypeError] while it builds its parameters, whatever the order of the
    fetched rows, and no [UPDATE] is run. *)
Theorem class_cell_null (rows : list (string * main_row))
    (t : gmap string main_row) (n : string) (r : main_row) :
  rows ≡ₚ fetchall t -> t !! n = Some r -> Perihel_AU r = None ->
  class_cell_on rows t = Raise TypeError.
Proof.
  intros Hperm Hr Hq. unfold class_cell_on, neo_class_param_dict.
  erewrite mapM_Raise with (x := (n, r)); [reflexivity | | |].
  - rewrite Hperm. apply elem_of_map_to_list. exact Hr.
  - simpl. rewrite Hq, neo_class_dyn_no_perihelion. reflexivity.
  - intros [k r'] e. simpl.
    destruct (neo_class_dyn _ _ _) as [c | e0] eqn:E; [discriminate|].
    apply neo_class_dyn_raises in E as ->. cbn. congruence.
Qed.

(** *** The three cells in a row *)

(** X21: the insert, the derived-parameter cell and the class cell in a row
    on a fresh database: the run succeeds, and an object is stored under its
    name with the elements of its first record, the aphelion and perihelion
    derived from them and the class [neo_class] gives these; a name that is
    in no record is not in the table. *)
Theorem neodys_pipeline_row (neo_dict l1 l2 : list (string * elements))
    (n : string) (el : elements) :
  neo_dict = l1 ++ (n, el) :: l2 -> n ∉ l1.*1 ->
  exists t : gmap string main_row,
    neodys_pipeline neo_dict = Ok t /\
    t !! n = Some (MainRow el
                     (Some (aphel_au (SemMajAxis_AU el) (Ecc_ el)))
                     (Some (perihel_au (SemMajAxis_AU el) (Ecc_ el)))
                     (Some (neo_class (SemMajAxis_AU el)
                              (perihel_au (SemMajAxis_AU el) (Ecc_ el))
                              (aphel_au (SemMajAxis_AU el) (Ecc_ el))))) /\
    (forall m, m ∉ neo_dict.*1 -> t !! m = None).
Proof.
  intros Hdict Hn.
  unfold neodys_pipeline, class_cell. rewrite deriv_cell_fmap.
  set (t1 := insert_cell ∅ neo_dict).
  destruct (class_cell_on_filled (fetchall (with_deriv <$> t1)) (with_deriv <$> t1))
    as (t & Ht & Hnone & Hsome); [reflexivity | |].
  { intros k r. rewrite lookup_fmap. destruct (t1 !! k) as [r0|]; [|discriminate].
    simpl. intros [= <-]. split; eexists; reflexivity. }
  exists t. split; [exact Ht|]. split.
  - apply (Hsome n (with_deriv (MainRow el None None None))); [|reflexivity..].
    rewrite lookup_fmap. unfold t1. rewrite Hdict.
    rewrite insert_cell_first; [reflexivity | apply lookup_empty | exact Hn].
  - intros m Hm. apply Hnone. rewrite lookup_fmap.
    unfold t1. rewrite insert_cell_absent; [reflexivity | apply lookup_empty | exact Hm].
Qed.

(** ** Reading the catalogue *)

Example py_split_example :
  py_split "  433   59600.0 1.458  " = ["433"; "59600.0"; "1.458"]%string.
Proof. reflexivity. Qed.

Example str_remove_example :
  str_remove apostrophe "'2021 AB'" = "2021 AB"%string.
Proof. reflexivity. Qed.

Lemma bind_Done {A B} (f : A -> outcome B) (a : A) : (Done a ≫= f) = f a.
Proof. reflexivity. Qed.

Lemma str_forall_app (p : ascii -> bool) (s t : string) :
  str_forall p (s +:+ t) = str_forall p s && str_forall p t.
Proof.
  induction s as [|c s IH]; [reflexivity|].
  simpl. rewrite IH. apply andb_assoc.
Qed.

Lemma app_nonempty (s : string) (c : ascii) : s +:+ String c "" <> ""%string.
Proof. destruct s; discriminate. Qed.

Lemma split_go_clean (s tok : string) :
  str_forall (fun c => negb (is_space c)) tok = true ->
  Forall clean_field (split_go s tok).
Proof.
  revert tok. induction s as [|c s IH]; intros tok Htok; simpl.
  - destruct tok; constructor; [|constructor]. split; [discriminate | exact Htok].
  - destruct (is_space c) eqn:Ec.
    + destruct tok.
      * apply IH. reflexivity.
      * constructor; [split; [discriminate | exact Htok] | apply IH; reflexivity].
    + apply IH. rewrite str_forall_app, Htok. simpl. rewrite Ec. reflexivity.
Qed.

Lemma py_split_clean (s : string) : Forall clean_field (py_split s).
Proof. apply split_go_clean. reflexivity. Qed.

Lemma py_split_blank (s : string) :
  str_forall is_space s = true -> py_split s = [].
Proof.
  unfold py_split. induction s as [|c s IH]; [reflexivity|].
  simpl. intros H. apply andb_prop in H as [-> H]. apply IH, H.
Qed.

Lemma str_remove_absent (c : ascii) (s : string) :
  str_forall (fun x => negb (Ascii.eqb x c)) (str_remove c s) = true.
Proof.
  induction s as [|x s IH]; [reflexivity|].
  simpl. destruct (Ascii.eqb x c) eqn:E; [exact IH|].
  simpl. rewrite E, IH. reflexivity.
Qed.

Lemma str_remove_id (c : ascii) (s : string) :
  str_forall (fun x => negb (Ascii.eqb x c)) s = true -> str_remove c s = s.
Proof.
  induction s as [|x s IH]; [reflexivity|].
  simpl. intros H. apply andb_prop in H as [Hx H].
  destruct (Ascii.eqb x c); [discriminate|]. rewrite IH by exact H. reflexivity.
Qed.

Section ReadCatalogueProps.

Variable py_float : string -> option R.

Lemma item_take (l : list string) (i k : nat) :
  (i < k)%nat -> item (take k l) i = item l i.
Proof. intros H. unfold item. rewrite lookup_take_lt by exact H. reflexivity. Qed.

Lemma float_item_take (l : list string) (i k : nat) :
  (i < k)%nat -> float_item py_float (take k l) i = float_item py_float l i.
Proof. intros H. unfold float_item. rewrite item_take by exact H. reflexivity. Qed.

Lemma read_fields_take (fs : list string) :
  read_fields py_float (take 10 fs) = read_fields py_float fs.
Proof.
  unfold read_fields.
  rewrite item_take by lia. rewrite !float_item_take by lia. reflexivity.
Qed.

(** X24: fields after the tenth are ignored. *)
Theorem read_fields_extra (fs extra : list string) :
  (10 <= length fs)%nat ->
  read_fields py_float (fs ++ extra) = read_fields py_float fs.
Proof.
  intros H. rewrite <- (read_fields_take (fs ++ extra)), <- (read_fields_take fs).
  rewrite take_app_le by exact H. reflexivity.
Qed.

Lemma bind_Done_inv {A B} (m : outcome A) (f : A -> outcome B) (b : B) :
  (m ≫= f) = Done b -> exists a, m = Done a /\ f a = Done b.
Proof. destruct m as [a | e]; [eauto | discriminate]. Qed.

Lemma float_item_Done (l : list string) (i : nat) (x : R) :
  float_item py_float l i = Done x -> (i < length l)%nat.
Proof.
  unfold float_item, item. intros H.
  apply bind_Done_inv in H as (s & Hs & _).
  destruct (l !! i) eqn:E; [|discriminate].
  apply lookup_lt_Some in E. exact E.
Qed.

Lemma read_fields_Done (fs : list string) (d : string * elements) :
  read_fields py_float fs = Done d ->
  (10 <= length fs)%nat /\
  str_forall (fun x => negb (Ascii.eqb x apostrophe)) d.1 = true.
Proof.
  unfold read_fields. intros H.
  apply bind_Done_inv in H as (name & _ & H).
  do 8 (apply bind_Done_inv in H as (? & _ & H)).
  apply bind_Done_inv in H as (g & Hg & H).
  apply float_item_Done in Hg.
  injection H as <-. split; [lia | apply str_remove_absent].
Qed.

Lemma read_fields_short (fs : list string) :
  (length fs < 10)%nat -> exists e, read_fields py_float fs = Fail e.
Proof.
  intros Hlen. destruct (read_fields py_float fs) as [d | e] eqn:E; [|eauto].
  apply read_fields_Done in E as [Hge _]. lia.
Qed.

Lemma read_line_blank (line : string) :
  str_forall is_space line = true -> read_line py_float line = Fail IndexError.
Proof. intros H. unfold read_line. rewrite py_split_blank by exact H. reflexivity. Qed.

Lemma mapM_Done_Forall2 {A B} (f : A -> outcome B) (l : list A) (k : list B) :
  mapM f l = Done k <-> Forall2 (fun x y => f x = Done y) l k.
Proof.
  revert k. induction l as [|x l IH]; intros k; simpl.
  - split.
    + intros [= <-]. constructor.
    + intros H. inversion H. reflexivity.
  - split.
    + intros H. destruct (f x) as [y | e] eqn:Ex; [|discriminate].
      rewrite bind_Done in H.
      destruct (mapM f l) as [k' | e] eqn:El; [|discriminate].
      injection H as <-. constructor; [exact Ex | apply IH; reflexivity].
    + intros H. inversion H as [|? y ? k' Hxy Hrest]; subst.
      rewrite Hxy, bind_Done. apply IH in Hrest. rewrite Hrest. reflexivity.
Qed.

Lemma mapM_Fail {A B} (f : A -> outcome B) (l : list A) (x : A) (e : read_exn) :
  x ∈ l -> f x = Fail e -> exists e', mapM f l = Fail e'.
Proof.
  intros Hx Hfx. destruct (mapM f l) as [k | e'] eqn:E; [|eauto].
  apply mapM_Done_Forall2 in E.
  apply list_elem_of_lookup in Hx as [i Hi].
  destruct (Forall2_lookup_l _ _ _ _ _ E Hi) as (y & _ & Hy). congruence.
Qed.

Lemma read_catalogue_header_only (lines : list string) :
  (length lines <= 6)%nat -> read_catalogue py_float lines = Done [].
Proof.
  intros H. unfold read_catalogue. rewrite drop_ge by exact H. reflexivity.
Qed.

(** X22: when the catalogue is read, there is one record per line after the six
    header lines, in order; record [i] is read from line [6 + i], which has at
    least ten fields, and its name holds no apostrophe. *)
Theorem read_catalogue_records (lines : list string) (neo_dict : list (string * elements)) :
  read_catalogue py_float lines = Done neo_dict ->
  length neo_dict = (length lines - 6)%nat /\
  (forall i d, neo_dict !! i = Some d ->
     exists line, lines !! (6 + i)%nat = Some line /\
       read_line py_float line = Done d /\
       (10 <= length (py_split line))%nat /\
       str_forall (fun x => negb (Ascii.eqb x apostrophe)) d.1 = true).
Proof.
  unfold read_catalogue. intros H. apply mapM_Done_Forall2 in H.
  split.
  - rewrite <- (Forall2_length _ _ _ H). apply length_drop.
  - intros i d Hd.
    destruct (Forall2_lookup_r _ _ _ _ _ H Hd) as (line & Hline & Hread).
    rewrite lookup_drop in Hline.
    exists line. split; [exact Hline|]. split; [exact Hread|].
    apply read_fields_Done. exact Hread.
Qed.

(** The loop stops at the first line that cannot be read, with the records
    of the lines before it in [neo_dict]. *)
Lemma read_loop_first_fail (neo_data : list string)
    (neo_dict : list (string * elements)) (j : nat) (line : string) :
  neo_data !! j = Some line -> (exists e, read_line py_float line = Fail e) ->
  exists (k : nat) (e : read_exn) (bad : string) (ds : list (string * elements)),
    (k <= j)%nat /\ neo_data !! k = Some bad /\
    read_line py_float bad = Fail e /\
    Forall2 (fun l d => read_line py_float l = Done d) (take k neo_data) ds /\
    read_loop py_float neo_data neo_dict = (neo_dict ++ ds, Some e) /\
    mapM (read_line py_float) neo_data = Fail e.
Proof.
  revert neo_dict j.
  induction neo_data as [|x rest IH]; intros neo_dict j Hj Hfail; [discriminate|].
  destruct (read_line py_float x) as [d | e] eqn:Ex.
  - destruct j as [|j].
    { injection Hj as <-. destruct Hfail as [e He]. congruence. }
    destruct (IH (neo_dict ++ [d]) j Hj Hfail)
      as (k & e & bad & ds & Hk & Hbad & He & Hds & Hloop & Hmap).
    exists (S k), e, bad, (d :: ds).
    split; [lia|]. split; [exact Hbad|]. split; [exact He|].
    split; [constructor; assumption|].
    split.
    + simpl. rewrite Ex, Hloop, <- app_assoc. reflexivity.
    + simpl. rewrite Ex, bind_Done, Hmap. reflexivity.
  - exists 0%nat, e, x, [].
    split; [lia|]. split; [reflexivity|]. split; [exact Ex|].
    split; [constructor|].
    split.
    + simpl. rewrite Ex, app_nil_r. reflexivity.
    + simpl. rewrite Ex. reflexivity.
Qed.

(** When every line is read, the list the loop has filled is the one
    [read_catalogue] gives. *)
Lemma read_loop_Done (neo_data : list string)
    (neo_dict ds : list (string * elements)) :
  mapM (read_line py_float) neo_data = Done ds ->
  read_loop py_float neo_data neo_dict = (neo_dict ++ ds, None).
Proof.
  revert neo_dict ds.
  induction neo_data as [|x rest IH]; intros neo_dict ds; simpl.
  - intros [= <-]. rewrite app_nil_r. reflexivity.
  - destruct (read_line py_float x) as [d | e]; [|discriminate].
    rewrite bind_Done.
    destruct (mapM (read_line py_float) rest) as [ds' | e] eqn:E; [|discriminate].
    intros [= <-]. rewrite (IH _ ds' eq_refl), <- app_assoc. reflexivity.
Qed.

Lemma read_cell_Done (lines : list string) (neo_dict : list (string * elements)) :
  read_catalogue py_float lines = Done neo_dict ->
  read_cell py_float lines = (neo_dict, None).
Proof. intros H. unfold read_cell. rewrite (read_loop_Done _ [] _ H). reflexivity. Qed.

(** X23: a line after the header with fewer than ten fields (a blank line has
    none) makes the read raise, at that line or at an earlier one that cannot
    be read; [neo_dict] then holds the records of the lines before the one
    that raised, and no more. *)
Theorem read_catalogue_short_line (lines : list string) (i : nat) (line : string) :
  lines !! i = Some line -> (6 <= i)%nat -> (length (py_split line) < 10)%nat ->
  exists (k : nat) (e : read_exn) (bad : string)
         (neo_dict : list (string * elements)),
    (6 + k <= i)%nat /\ lines !! (6 + k)%nat = Some bad /\
    read_line py_float bad = Fail e /\
    read_catalogue py_float lines = Fail e /\
    read_cell py_float lines = (neo_dict, Some e) /\
    Forall2 (fun l d => read_line py_float l = Done d)
      (take k (drop 6 lines)) neo_dict.
Proof.
  intros Hi Hge Hshort.
  assert (drop 6 lines !! (i - 6)%nat = Some line) as Hdrop.
  { rewrite lookup_drop. replace (6 + (i - 6))%nat with i by lia. exact Hi. }
  destruct (read_loop_first_fail (drop 6 lines) [] (i - 6) line Hdrop
              (read_fields_short _ Hshort))
    as (k & e & bad & ds & Hk & Hbad & He & Hds & Hloop & Hmap).
  exists k, e, bad, ds.
  split; [lia|]. split; [rewrite <- lookup_drop; exact Hbad|].
  split; [exact He|]. split; [exact Hmap|]. split; [exact Hloop|]. exact Hds.
Qed.

End ReadCatalogueProps.

(** ** Orbital speed and angular distance *)

(** X26: on numpy scalars, [v_orb_func (gm, r)] with [gm >= 0] and [r > 0]
    returns the speed [v >= 0] with [v * v * r = gm]; with [r = 0] or a
    negative quotient it has no value. *)
Theorem v_orb_func_spec (gm r : R) :
  (0 <= gm -> 0 < r ->
   exists v : R, v_orb_func gm r = Ok v /\ 0 <= v /\ v * v * r = gm) /\
  (r = 0 \/ gm / r < 0 -> v_orb_func gm r = Raise FloatingPointError).
Proof.
  unfold v_orb_func, np_true_divide, np_sqrt. split.
  - intros Hgm Hr.
    case_decide; [lra|]. rewrite bind_Ok.
    assert (0 <= gm / r) as Hq.
    { unfold Rdiv. apply Rmult_le_pos; [exact Hgm|].
      left. apply Rinv_0_lt_compat. exact Hr. }
    case_decide; [lra|].
    eexists. split; [reflexivity|]. split; [apply sqrt_pos|].
    rewrite sqrt_sqrt by exact Hq. field. lra.
  - intros H.
    case_decide as Hr; [reflexivity|]. rewrite bind_Ok.
    destruct H as [H | H]; [contradiction|].
    case_decide; [reflexivity | lra].
Qed.

Lemma dotp_e1 (x : R) (v : list R) : dotp (x :: v) [1.0; 0.0; 0.0] = x.
Proof.
  destruct v as [|y [|z [|w v]]]; unfold dotp, sum_list; simpl; lra.
Qed.

Lemma norm_e1 : np_linalg_norm [1.0; 0.0; 0.0] = 1.
Proof.
  unfold np_linalg_norm, sum_sq, sum_list. simpl.
  replace (1.0 * 1.0 + (0.0 * 0.0 + (0.0 * 0.0 + 0))) with (1 * 1) by lra.
  apply sqrt_square. lra.
Qed.

(** X27: for a state vector with a nonzero position, the angular distance to
    the direction [(1, 0, 0)] is a number of degrees in [[0, 180]] whose
    cosine is the first coordinate over the distance. *)
Theorem ang_dist_deg_range (state : list R) (x : R) :
  (3 <= length state)%nat -> nonzero (take 3 state) -> state !! 0%nat = Some x ->
  exists d : R,
    ang_dist_deg state = Ok d /\ 0 <= d <= 180 /\
    cos (d * PI / 180) * np_linalg_norm (take 3 state) = x.
Proof.
  intros Hlen Hnz Hx. unfold ang_dist_deg.
  set (pos := take 3 state) in *.
  pose proof (norm_pos pos Hnz) as Hn.
  set (n := np_linalg_norm pos) in *.
  rewrite np_divide_scalar_scale, bind_Ok by lra.
  assert (length pos = 3%nat) as Hpos by (unfold pos; rewrite length_take; lia).
  unfold np_dot. case_decide as Hl;
    [|exfalso; apply Hl; unfold np_scale; rewrite length_map; exact Hpos].
  rewrite bind_Ok.
  assert (exists rest, pos = x :: rest) as [rest Hrest].
  { unfold pos. destruct state as [|y state]; [discriminate|].
    injection Hx as ->. simpl. eauto. }
  assert (dotp (np_scale (/ n) pos) [1.0; 0.0; 0.0] = x / n) as Hdot.
  { rewrite Hrest. unfold np_scale. simpl map. rewrite dotp_e1. unfold Rdiv. ring. }
  assert (-1 <= x / n <= 1) as Hb.
  { pose proof (dotp_bounds (np_scale (/ n) pos) [1.0; 0.0; 0.0]) as Hb.
    rewrite Hdot, norm_e1, norm_scale in Hb
      by (left; apply Rinv_0_lt_compat; exact Hn).
    fold n in Hb. rewrite Rinv_l in Hb by lra. lra. }
  rewrite Hdot. unfold np_arccos. case_decide; [|contradiction].
  rewrite bind_Ok. eexists. split; [reflexivity|].
  pose proof (acos_bound (x / n)) as [Ha0 Ha1]. pose proof PI_RGT_0 as Hpi.
  unfold np_degrees. split.
  - split.
    + apply Rmult_le_pos; [exact Ha0|].
      unfold Rdiv. apply Rmult_le_pos; [lra|]. left. apply Rinv_0_lt_compat, Hpi.
    + apply Rmult_le_reg_r with (PI / 180); [lra|].
      replace (acos (x / n) * (180 / PI) * (PI / 180)) with (acos (x / n))
        by (field; lra). lra.
  - replace (acos (x / n) * (180 / PI) * PI / 180) with (acos (x / n))
      by (field; lra).
    rewrite cos_acos by exact Hb. field. lra.
Qed.

Lemma ang_dist_deg_at_sun (state : list R) :
  take 3 state <> [] -> np_linalg_norm (take 3 state) = 0 ->
  ang_dist_deg state = Raise FloatingPointError.
Proof.
  intros Hne Hz. unfold ang_dist_deg, np_divide_scalar. rewrite Hz.
  case_decide as H; [reflexivity|]. exfalso. apply H. auto.
Qed.

(** ** The population model's way to the apparent magnitude *)

Lemma zip_minus_plus (u v : list R) :
  zip_with Rminus u v = zip_with Rplus (np_scale (-1.0) v) u.
Proof.
  revert v. induction u as [|x u IH]; intros [|y v]; try reflexivity.
  unfold np_scale in *. simpl. rewrite IH. f_equal. lra.
Qed.


(** * Further properties of the notebooks *)

(** ** Photometry *)

(** X1: on a phase angle in [[0, PI)], [phase_func] returns a value in
    [[0, 1]], and the value is [1] at phase angle [0]. *)
Theorem phase_func_range (index : Z) (theta : R) :
  index = 1%Z \/ index = 2%Z -> 0 <= theta < PI ->
  exists phi : R,
    phase_func index theta = Ok phi /\ 0 <= phi <= 1 /\ (theta = 0 -> phi = 1).
Proof.
  intros Hindex Htheta.
  destruct (phase_func_unit_interval index theta Hindex Htheta)
    as (phi & Hphi & Hrange & Hone).
  exists phi. auto.
Qed.

Lemma phase_func_range_witness :
  exists phi : R,
    phase_func 1 (PI / 4) = Ok phi /\ 0 <= phi <= 1 /\ (PI / 4 = 0 -> phi = 1).
Proof.
  apply (phase_func_range 1 (PI / 4)).
  - left. reflexivity.
  - exact PI4_range.
Defined.

(** X2: on [[0, PI)], [phase_func] does not grow with the phase angle. *)
Theorem phase_func_decreasing (index : Z) (theta1 theta2 : R) :
  index = 1%Z \/ index = 2%Z -> 0 <= theta1 < theta2 -> theta2 < PI ->
  exists phi1 phi2 : R,
    phase_func index theta1 = Ok phi1 /\ phase_func index theta2 = Ok phi2 /\
    phi2 <= phi1.
Proof.
  intros Hindex H12 H2.
  destruct (phase_func_le index theta1 theta2 Hindex H12 H2)
    as (phi1 & phi2 & H).
  exists phi1, phi2. exact H.
Qed.

Lemma phase_func_decreasing_witness :
  exists phi1 phi2 : R,
    phase_func 2 0 = Ok phi1 /\ phase_func 2 (PI / 4) = Ok phi2 /\ phi2 <= phi1.
Proof.
  pose proof PI_RGT_0.
  apply (phase_func_decreasing 2 0 (PI / 4)).
  - right. reflexivity.
  - lra.
  - lra.
Defined.

(** X3: for a phase angle in [[0, PI)] and a slope parameter in [[0, 1]] (the
    default is), a value that [reduc_mag] returns is never below the absolute
    magnitude; at phase angle [0] it returns the absolute magnitude. *)
Theorem reduc_mag_fainter (abs_mag theta : R) (slope_g : option R)
    (red_mag : R) :
  0 <= theta < PI -> 0 <= default slope_g_default slope_g <= 1 ->
  reduc_mag abs_mag theta slope_g = Ok red_mag ->
  abs_mag <= red_mag /\ reduc_mag abs_mag 0 slope_g = Ok abs_mag.
Proof.
  intros Htheta Hslope Hred. split.
  - exact (reduc_mag_ge_abs_mag abs_mag theta slope_g red_mag Htheta Hslope Hred).
  - rewrite reduc_mag_slope. apply reduc_mag_at_0.
Qed.

Lemma reduc_mag_fainter_witness :
  exists red_mag : R,
    reduc_mag 10.0 (PI / 4) None = Ok red_mag /\
    10.0 <= red_mag /\ reduc_mag 10.0 0 None = Ok 10.0.
Proof.
  destruct reduc_mag_PI4_slope_default as (red_mag & Hred & _).
  exists red_mag. split; [exact Hred|].
  apply (reduc_mag_fainter 10.0 (PI / 4) None red_mag).
  - exact PI4_range.
  - unfold slope_g_default. simpl. lra.
  - exact Hred.
Defined.

Lemma reduc_mag_increasing_witness :
  exists r2 : R,
    reduc_mag 10.0 (PI / 4) (Some 0.10) = Ok r2 /\ 10.0 <= r2.
Proof.
  destruct reduc_mag_PI4_slope_0_10 as (r2 & Hr2 & _).
  exists r2. split; [exact Hr2|].
  pose proof PI_RGT_0.
  apply (reduc_mag_increasing 10.0 0 (PI / 4) (Some 0.10) 10.0 r2).
  - lra.
  - lra.
  - simpl. lra.
  - apply reduc_mag_at_0.
  - exact Hr2.
Defined.

Lemma exp_m333_le : 2 * exp (- (3.33)) <= exp (- (1.87)).
Proof.
  pose proof (exp_ineq1_le 1.46) as He.
  set (E := exp (- (1.87))). set (F := exp (- (1.46))).
  assert (exp (- (3.33)) = E * F) as ->
    by (unfold E, F; rewrite <- exp_plus; f_equal; lra).
  assert (0 < E) by apply exp_pos. assert (0 < F) by apply exp_pos.
  assert (F * exp 1.46 = 1) as Hinv
    by (unfold F; rewrite <- exp_plus; replace (- (1.46) + 1.46) with 0 by lra;
        apply exp_0).
  assert (F <= 1 / 2) by nra.
  nra.
Qed.

Lemma PI2_range : 0 <= PI / 2 < PI.
Proof. pose proof PI_RGT_0. lra. Qed.

Lemma phase_func_PI2 :
  phase_func 1 (PI / 2) = Ok (exp (- (3.33))) /\
  phase_func 2 (PI / 2) = Ok (exp (- (1.87))).
Proof.
  rewrite (phase_func_1 _ PI2_range), (phase_func_2 _ PI2_range).
  replace (PI / 2 / 2) with (PI / 4) by lra. rewrite tan_PI4.
  rewrite !real_pow_pos by lra. rewrite ln_1, !Rmult_0_r, exp_0, !Rmult_1_r.
  split; reflexivity.
Qed.

(** At a quarter turn the slope parameter [-1] makes the logarithm fail. *)
Lemma reduc_mag_returns_iff_witness :
  reduc_mag 10.0 (PI / 2) (Some (-1)) = Raise ValueError.
Proof.
  destruct (reduc_mag_returns_iff 10.0 (PI / 2) (-1) PI2_range)
    as (phi1 & phi2 & H1 & H2 & _ & Hfail).
  apply Hfail.
  destruct phase_func_PI2 as [E1 E2].
  rewrite E1 in H1. rewrite E2 in H2.
  injection H1 as <-. injection H2 as <-.
  pose proof exp_m333_le. lra.
Defined.



Lemma dotp_doctest : dotp [-1; 0; 0] [-2; 0; 0] = 2.
Proof. unfold dotp, sum_list. simpl. lra. Qed.

Lemma hg_app_mag_returned_witness :
  nonzero [-1; 0; 0] /\ nonzero [-2; 0; 0] /\
  dotp [-1; 0; 0] [-2; 0; 0]
  <> - (np_linalg_norm [-1; 0; 0] * np_linalg_norm [-2; 0; 0]) /\
  10 + 5 * log10 (np_linalg_norm [-1; 0; 0] * np_linalg_norm [-2; 0; 0])
  <= 10 + 5 * log10 2.
Proof.
  apply (hg_app_mag_returned 10 [-1; 0; 0] [-2; 0; 0] (Some 0.10)).
  - simpl. lra.
  - apply hg_app_mag_doctest.
Defined.

Lemma hg_app_mag_opposed_witness :
  hg_app_mag 10 [1.0; 0.0; 0.0] [-2; 0; 0] (Some 0.10) = Raise ValueError.
Proof.
  apply (hg_app_mag_opposed 10 [1.0; 0.0; 0.0] [-2; 0; 0] (Some 0.10)).
  - apply nonzero_head. lra.
  - apply nonzero_head. lra.
  - rewrite norm_e1, norm_doctest_ill. unfold dotp, sum_list. simpl. lra.
Defined.

(** ** From heliocentric positions to the apparent magnitude *)



Lemma eros433_app_mag_coincident_witness :
  eros433_app_mag 10.87 0.46 [0; 1; 0] [0; 1; 0] = Raise ValueError.
Proof.
  apply (eros433_app_mag_coincident 10.87 0.46 [0; 1; 0] [0; 1; 0]).
  - reflexivity.
  - right. reflexivity.
Defined.


(** ** The classifier and the table *)

Lemma neo_class_by_axis_witness :
  neo_class 1.01 (perihel_au 1.01 0.5) (aphel_au 1.01 0.5) = "Apollo"%string.
Proof.
  apply (neo_class_by_axis 1.01 0.5); lra.
Defined.

(** X15: on the values of a fetched row, [neo_class] is the classifier when
    all three are floats; a NULL perihelion always raises [TypeError]; with a
    NULL aphelion an Amor or an Apollo is still classified, since the
    aphelion is not looked at, and every other object raises [TypeError]. *)
Theorem neo_class_dyn_missing (a q : R) :
  (forall Q : R, neo_class_dyn (Some a) (Some q) (Some Q) = Ok (neo_class a q Q)) /\
  (forall a' Q' : option R, neo_class_dyn a' None Q' = Raise TypeError) /\
  (a > 1 -> q < 1.3 -> q <> 1.017 ->
   forall Q : R, neo_class_dyn (Some a) (Some q) None = Ok (neo_class a q Q)) /\
  (~ (a > 1 /\ q < 1.3 /\ q <> 1.017) ->
   neo_class_dyn (Some a) (Some q) None = Raise TypeError).
Proof.
  split; [intros Q; apply neo_class_dyn_floats|].
  split; [intros a' Q'; apply neo_class_dyn_no_perihelion|].
  apply neo_class_dyn_no_aphelion_aux.
Qed.

Lemma neo_class_dyn_missing_witness :
  neo_class_dyn (Some 1.458273) (Some 1.133476) None
  = Ok (neo_class 1.458273 1.133476 0) /\
  neo_class_dyn (Some 0.9668) (Some 0.7901) None = Raise TypeError.
Proof.
  split.
  - apply (proj1 (proj2 (proj2 (neo_class_dyn_missing 1.458273 1.133476)))); lra.
  - apply (proj2 (proj2 (proj2 (neo_class_dyn_missing 0.9668 0.7901)))). lra.
Defined.

(** X16: after the insert, a name that was in the table keeps its row; a new
    name gets the elements of its first record in the batch, with NULL in the
    later columns; a name that is in neither is absent. *)
Theorem insert_cell_lookup (t : gmap string main_row)
    (neo_dict : list (string * elements)) (n : string) :
  (forall r, t !! n = Some r -> insert_cell t neo_dict !! n = Some r) /\
  (t !! n = None ->
   forall l1 el l2, neo_dict = l1 ++ (n, el) :: l2 -> n ∉ l1.*1 ->
     insert_cell t neo_dict !! n = Some (MainRow el None None None)) /\
  (t !! n = None -> n ∉ neo_dict.*1 -> insert_cell t neo_dict !! n = None).
Proof.
  split; [|split].
  - intros r. apply insert_cell_old.
  - intros Hn l1 el l2 -> Hl1. apply insert_cell_first; assumption.
  - apply insert_cell_absent.
Qed.

Lemma insert_cell_lookup_witness :
  insert_cell ∅ [("433"%string, eros433); ("433"%string, Elements 0 0 0 0 0 0 0 0 0)]
    !! "433"%string
  = Some (MainRow eros433 None None None).
Proof.
  apply (proj1 (proj2 (insert_cell_lookup ∅
           [("433"%string, eros433); ("433"%string, Elements 0 0 0 0 0 0 0 0 0)]
           "433"%string))
         (lookup_empty _) [] eros433
         [("433"%string, Elements 0 0 0 0 0 0 0 0 0)] eq_refl).
  apply not_elem_of_nil.
Defined.

(** X18: whatever the order of the fetched rows, the derived-parameter cell
    sets the aphelion of every row to [(1 + e) * a] and its perihelion to
    [(1 - e) * a] and changes nothing else; no row is added or lost, and
    running the cell again changes nothing. *)
Theorem deriv_cell_spec (rows : list (string * main_row))
    (t : gmap string main_row) :
  rows ≡ₚ fetchall t ->
  deriv_cell_on rows t = with_deriv <$> t /\
  dom (deriv_cell_on rows t) = dom t /\
  deriv_cell (deriv_cell_on rows t) = deriv_cell_on rows t.
Proof.
  intros Hperm. rewrite (deriv_cell_on_fmap rows t Hperm).
  split; [reflexivity|]. split; [apply dom_fmap_L|].
  rewrite deriv_cell_fmap, <- map_fmap_compose.
  apply map_fmap_ext. intros n r _. reflexivity.
Qed.

Lemma deriv_cell_spec_witness :
  deriv_cell_on (fetchall eros433_table) eros433_table
  = with_deriv <$> eros433_table.
Proof.
  apply (deriv_cell_spec (fetchall eros433_table) eros433_table).
  reflexivity.
Defined.

(** X19: when every row has its perihelion and aphelion, the class cell
    succeeds whatever the order of the fetched rows: it sets the class of
    every row to [neo_class] of the row's semi-major axis, perihelion and
    aphelion, changes nothing else and adds no row. *)
Theorem class_cell_spec (rows : list (string * main_row))
    (t : gmap string main_row) :
  rows ≡ₚ fetchall t ->
  (forall n r, t !! n = Some r -> is_Some (Perihel_AU r) /\ is_Some (Aphel_AU r)) ->
  exists t' : gmap string main_row,
    class_cell_on rows t = Ok t' /\
    (forall n, t !! n = None -> t' !! n = None) /\
    (forall n r q Q,
       t !! n = Some r -> Perihel_AU r = Some q -> Aphel_AU r = Some Q ->
       t' !! n = Some (MainRow (orbit r) (Some Q) (Some q)
                         (Some (neo_class (SemMajAxis_AU (orbit r)) q Q)))).
Proof.
  intros Hperm Hfilled.
  destruct (class_cell_on_filled rows t Hperm Hfilled) as (t' & H).
  exists t'. exact H.
Qed.

Lemma class_cell_spec_witness :
  exists t' : gmap string main_row,
    class_cell_on (fetchall eros433_derived) eros433_derived = Ok t' /\
    (forall n, eros433_derived !! n = None -> t' !! n = None) /\
    (forall n r q Q,
       eros433_derived !! n = Some r ->
       Perihel_AU r = Some q -> Aphel_AU r = Some Q ->
       t' !! n = Some (MainRow (orbit r) (Some Q) (Some q)
                         (Some (neo_class (SemMajAxis_AU (orbit r)) q Q)))).
Proof.
  apply (class_cell_spec (fetchall eros433_derived) eros433_derived).
  - reflexivity.
  - intros n r Hr. unfold eros433_derived in Hr.
    apply lookup_singleton_Some in Hr as [_ <-].
    split; eexists; reflexivity.
Defined.

Lemma class_cell_null_witness :
  class_cell_on (fetchall eros433_table) eros433_table = Raise TypeError.
Proof.
  apply (class_cell_null (fetchall eros433_table) eros433_table
           "433"%string (MainRow eros433 None None None)).
  - reflexivity.
  - apply lookup_singleton_eq.
  - reflexivity.
Defined.

Lemma neodys_pipeline_row_witness :
  exists t : gmap string main_row,
    neodys_pipeline [("433"%string, eros433)] = Ok t /\
    t !! "433"%string
    = Some (MainRow eros433
              (Some (aphel_au (SemMajAxis_AU eros433) (Ecc_ eros433)))
              (Some (perihel_au (SemMajAxis_AU eros433) (Ecc_ eros433)))
              (Some (neo_class (SemMajAxis_AU eros433)
                       (perihel_au (SemMajAxis_AU eros433) (Ecc_ eros433))
                       (aphel_au (SemMajAxis_AU eros433) (Ecc_ eros433))))) /\
    (forall m, m ∉ [("433"%string, eros433)].*1 -> t !! m = None).
Proof.
  apply (neodys_pipeline_row [("433"%string, eros433)] [] [] "433"%string eros433).
  - reflexivity.
  - apply not_elem_of_nil.
Defined.

(** (433) Eros comes out as an Amor, as the notebook shows. *)
Lemma eros433_class :
  neo_class (SemMajAxis_AU eros433)
    (perihel_au (SemMajAxis_AU eros433) (Ecc_ eros433))
    (aphel_au (SemMajAxis_AU eros433) (Ecc_ eros433)) = "Amor"%string.
Proof.
  apply neo_class_Amor; unfold perihel_au, aphel_au, eros433; simpl; lra.
Qed.

(** ** Reading the catalogue *)

Lemma read_catalogue_example :
  read_catalogue float_zero catalogue_example
  = Done [("433"%string, Elements 0 0 0 0 0 0 0 0 0)].
Proof. reflexivity. Qed.

Lemma read_catalogue_records_witness :
  length [("433"%string, Elements 0 0 0 0 0 0 0 0 0)]
  = (length catalogue_example - 6)%nat.
Proof.
  apply (read_catalogue_records float_zero catalogue_example
           [("433"%string, Elements 0 0 0 0 0 0 0 0 0)]).
  exact read_catalogue_example.
Defined.

(** A blank line after the one record: the cell raises [IndexError] and
    [neo_dict] holds the record. *)
Lemma read_cell_example :
  read_cell float_zero (catalogue_example ++ ["  "%string])
  = ([("433"%string, Elements 0 0 0 0 0 0 0 0 0)], Some IndexError).
Proof. reflexivity. Qed.

Lemma read_catalogue_short_line_witness :
  exists (k : nat) (e : read_exn) (bad : string)
         (neo_dict : list (string * elements)),
    (6 + k <= 7)%nat /\
    (catalogue_example ++ ["  "%string]) !! (6 + k)%nat = Some bad /\
    read_line float_zero bad = Fail e /\
    read_catalogue float_zero (catalogue_example ++ ["  "%string]) = Fail e /\
    read_cell float_zero (catalogue_example ++ ["  "%string])
    = (neo_dict, Some e) /\
    Forall2 (fun l d => read_line float_zero l = Done d)
      (take k (drop 6 (catalogue_example ++ ["  "%string]))) neo_dict.
Proof.
  apply (read_catalogue_short_line float_zero
           (catalogue_example ++ ["  "%string]) 7 "  "%string).
  - reflexivity.
  - lia.
  - simpl. lia.
Defined.

Lemma read_fields_extra_witness :
  read_fields float_zero (fields_example ++ ["# note"%string])
  = read_fields float_zero fields_example.
Proof.
  apply (read_fields_extra float_zero fields_example ["# note"%string]).
  simpl. lia.
Defined.

(** X25: [split] never yields an empty field or a field with whitespace in
    it; a line of whitespace only has no field, so that reading it raises
    [IndexError] at its first subscript. *)
Theorem py_split_fields (s : string) :
  Forall clean_field (py_split s) /\
  (str_forall is_space s = true ->
   py_split s = [] /\
   forall py_float, read_line py_float s = Fail IndexError).
Proof.
  split; [apply py_split_clean|].
  intros Hblank. split; [apply py_split_blank, Hblank|].
  intros py_float. apply read_line_blank, Hblank.
Qed.

Lemma py_split_fields_witness :
  read_line float_zero (String (ascii_of_nat 32) (String (ascii_of_nat 10) ""))
  = Fail IndexError.
Proof.
  apply (proj2 (py_split_fields
                  (String (ascii_of_nat 32) (String (ascii_of_nat 10) "")))).
  reflexivity.
Defined.

(** ** Orbital speed and angular distance *)

Lemma v_orb_func_spec_witness :
  exists v : R, v_orb_func 4 1 = Ok v /\ 0 <= v /\ v * v * 1 = 4.
Proof. apply (proj1 (v_orb_func_spec 4 1)); lra. Defined.

Lemma ang_dist_deg_range_witness :
  exists d : R,
    ang_dist_deg [0; 2; 0; 30; 0; 0] = Ok d /\ 0 <= d <= 180 /\
    cos (d * PI / 180) * np_linalg_norm (take 3 [0; 2; 0; 30; 0; 0]) = 0.
Proof.
  apply (ang_dist_deg_range [0; 2; 0; 30; 0; 0] 0).
  - simpl. lia.
  - simpl. right. left. lra.
  - reflexivity.
Defined.
